(** * CenturionAsm: the instruction catalog and the [assemble] loop

    A shallow embedding of [assembler.py]: the [Opcode] and [OpcodeGroup]
    dataclasses, the [MNEMONICS] dictionary as Python builds it from its
    literal, the line cleaning ([line_cleaner.sub], [str.strip],
    [re.split]) and the body of the [for] loop of [assemble], followed by
    the properties of the catalog and of the loop.

    Conventions.  A Python [int] is a [Z].  A Python [str] is a [string];
    characters are therefore the code points below 256, and [isspace] is
    Python's [str.isspace] on that range.  A [dict] is a [gmap].  A call
    that can raise returns a [Res].  The file system is a map from paths
    to what opening and reading the path gives: the bytes and the codec
    are not spelled out, an entry tells whether the path opens and whether
    its bytes decode, and to which text. *)

From Stdlib Require Import ZArith Ascii String List Lia.
From stdpp Require Import base option list strings gmap fin_maps.

Open Scope Z_scope.
Open Scope string_scope.
Open Scope list_scope.

(** ** Data model *)

(** [@dataclass class Opcode: instr: int; params: str] *)
Record Opcode := mkOpcode { instr : Z; params : string }.

(** [@dataclass class OpcodeGroup]: six optional opcodes, one per
    addressing mode. *)
Record OpcodeGroup := mkOpcodeGroup {
  literal : option Opcode;
  direct : option Opcode;
  indirect : option Opcode;
  pc_direct : option Opcode;
  pc_indirect : option Opcode;
  register : option Opcode
}.

(** A value of the [MNEMONICS] dictionary is an instance of one of the two
    classes; [assemble] tells them apart with [isinstance]. *)
Inductive Entry :=
| EOpcode (o : Opcode)
| EGroup (g : OpcodeGroup).

#[global] Instance Opcode_eq_dec : EqDecision Opcode.
Proof. solve_decision. Defined.
#[global] Instance OpcodeGroup_eq_dec : EqDecision OpcodeGroup.
Proof. solve_decision. Defined.
#[global] Instance Entry_eq_dec : EqDecision Entry.
Proof. solve_decision. Defined.

(** ** The catalog *)

(** The key/value pairs of the dictionary display [MNEMONICS = {...}], in
    the order in which they are written. *)
Definition MNEMONICS_display : list (string * Entry) :=
  [
    ("HLT", EOpcode (mkOpcode 0x00 ""));
    ("NOP", EOpcode (mkOpcode 0x01 ""));
    ("SF", EOpcode (mkOpcode 0x02 ""));
    ("RF", EOpcode (mkOpcode 0x03 ""));
    ("EI", EOpcode (mkOpcode 0x04 ""));
    ("DI", EOpcode (mkOpcode 0x05 ""));
    ("SL", EOpcode (mkOpcode 0x06 ""));
    ("RL", EOpcode (mkOpcode 0x07 ""));
    ("CL", EOpcode (mkOpcode 0x08 ""));
    ("RSR", EOpcode (mkOpcode 0x09 ""));
    ("RI", EOpcode (mkOpcode 0x0A ""));
    ("RIM", EOpcode (mkOpcode 0x0B ""));
    ("ELO", EOpcode (mkOpcode 0x0C ""));
    ("PCX", EOpcode (mkOpcode 0x0D ""));
    ("DLY", EOpcode (mkOpcode 0x0E ""));
    ("SYSRET", EOpcode (mkOpcode 0x0F ""));
    ("BL", EOpcode (mkOpcode 0x10 "PC+N"));
    ("BNL", EOpcode (mkOpcode 0x11 "PC+N"));
    ("BF", EOpcode (mkOpcode 0x12 "PC+N"));
    ("BNF", EOpcode (mkOpcode 0x13 "PC+N"));
    ("BZ", EOpcode (mkOpcode 0x14 "PC+N"));
    ("BNZ", EOpcode (mkOpcode 0x15 "PC+N"));
    ("BM", EOpcode (mkOpcode 0x16 "PC+N"));
    ("BP", EOpcode (mkOpcode 0x17 "PC+N"));
    ("BGZ", EOpcode (mkOpcode 0x18 "PC+N"));
    ("BLE", EOpcode (mkOpcode 0x19 "PC+N"));
    ("BS1", EOpcode (mkOpcode 0x1A "PC+N"));
    ("BS2", EOpcode (mkOpcode 0x1B "PC+N"));
    ("BS3", EOpcode (mkOpcode 0x1C "PC+N"));
    ("BS4", EOpcode (mkOpcode 0x1D "PC+N"));
    ("INR", EOpcode (mkOpcode 0x20 "Byte Register in high nibble, unsigned constant in low nibble"));
    ("DCR", EOpcode (mkOpcode 0x21 "Byte Register in high nibble, unsigned constant in low nibble"));
    ("CLR", EOpcode (mkOpcode 0x22 "Byte Register in high nibble, unsigned constant in low nibble"));
    ("IVR", EOpcode (mkOpcode 0x23 "Byte Register in high nibble, unsigned constant in low nibble"));
    ("SRR", EOpcode (mkOpcode 0x24 "Byte Register in high nibble, unsigned constant in low nibble"));
    ("SLR", EOpcode (mkOpcode 0x25 "Byte Register in high nibble, unsigned constant in low nibble"));
    ("RRR", EOpcode (mkOpcode 0x26 "Byte Register in high nibble, unsigned constant in low nibble"));
    ("RLR", EOpcode (mkOpcode 0x27 "Byte Register in high nibble, unsigned constant in low nibble"));
    ("INAL", EOpcode (mkOpcode 0x28 ""));
    ("DCAL", EOpcode (mkOpcode 0x29 ""));
    ("CLAL", EOpcode (mkOpcode 0x2A ""));
    ("IVAL", EOpcode (mkOpcode 0x2B ""));
    ("SRAL", EOpcode (mkOpcode 0x2C ""));
    ("SLAL", EOpcode (mkOpcode 0x2D ""));
    ("INR", EOpcode (mkOpcode 0x30 "Word Register in high nibble, unsigned constant in low nibble"));
    ("DCR", EOpcode (mkOpcode 0x31 "Word Register in high nibble, unsigned constant in low nibble"));
    ("CLR", EOpcode (mkOpcode 0x32 "Word Register in high nibble, unsigned constant in low nibble"));
    ("IVR", EOpcode (mkOpcode 0x33 "Word Register in high nibble, unsigned constant in low nibble"));
    ("SRR", EOpcode (mkOpcode 0x34 "Word Register in high nibble, unsigned constant in low nibble"));
    ("SLR", EOpcode (mkOpcode 0x35 "Word Register in high nibble, unsigned constant in low nibble"));
    ("RRR", EOpcode (mkOpcode 0x36 "Word Register in high nibble, unsigned constant in low nibble"));
    ("RLR", EOpcode (mkOpcode 0x37 "Word Register in high nibble, unsigned constant in low nibble"));
    ("INAW", EOpcode (mkOpcode 0x38 ""));
    ("DCAW", EOpcode (mkOpcode 0x39 ""));
    ("CLAW", EOpcode (mkOpcode 0x3A ""));
    ("IVAW", EOpcode (mkOpcode 0x3B ""));
    ("SRAW", EOpcode (mkOpcode 0x3C ""));
    ("SLAW", EOpcode (mkOpcode 0x3D ""));
    ("INX", EOpcode (mkOpcode 0x3E ""));
    ("DCX", EOpcode (mkOpcode 0x3F ""));
    ("ADD", EOpcode (mkOpcode 0x40 "Byte register, Byte register"));
    ("SUB", EOpcode (mkOpcode 0x41 "Byte register, Byte register"));
    ("AND", EOpcode (mkOpcode 0x42 "Byte register, Byte register"));
    ("ORI", EOpcode (mkOpcode 0x43 "Byte register, Byte register"));
    ("ORE", EOpcode (mkOpcode 0x44 "Byte register, Byte register"));
    ("XFR", EOpcode (mkOpcode 0x45 "Byte register, Byte register"));
    ("AABL", EOpcode (mkOpcode 0x48 ""));
    ("SABL", EOpcode (mkOpcode 0x49 ""));
    ("NABL", EOpcode (mkOpcode 0x4A ""));
    ("XAXL", EOpcode (mkOpcode 0x4B ""));
    ("XAYL", EOpcode (mkOpcode 0x4C ""));
    ("XABL", EOpcode (mkOpcode 0x4D ""));
    ("XAZL", EOpcode (mkOpcode 0x4E ""));
    ("XASL", EOpcode (mkOpcode 0x4F ""));
    ("ADD", EOpcode (mkOpcode 0x50 "Word Register, Word Register"));
    ("SUB", EOpcode (mkOpcode 0x51 "Word Register, Word Register"));
    ("AND", EOpcode (mkOpcode 0x52 "Word Register, Word Register"));
    ("ORI", EOpcode (mkOpcode 0x53 "Word Register, Word Register"));
    ("ORE", EOpcode (mkOpcode 0x54 "Word Register, Word Register"));
    ("XFR", EOpcode (mkOpcode 0x55 "Word Register, Word Register"));
    ("AABW", EOpcode (mkOpcode 0x58 ""));
    ("SABW", EOpcode (mkOpcode 0x59 ""));
    ("NABW", EOpcode (mkOpcode 0x5A ""));
    ("XAXW", EOpcode (mkOpcode 0x5B ""));
    ("XAYW", EOpcode (mkOpcode 0x5C ""));
    ("XABW", EOpcode (mkOpcode 0x5D ""));
    ("XAZW", EOpcode (mkOpcode 0x5E ""));
    ("XASW", EOpcode (mkOpcode 0x5F ""));
    ("LDXW", EGroup (mkOpcodeGroup
       (Some (mkOpcode 0x60 "#Literal")) (Some (mkOpcode 0x61 "Direct"))
       (Some (mkOpcode 0x62 "[Indirect]")) (Some (mkOpcode 0x63 "PC+N"))
       (Some (mkOpcode 0x64 "[PC+N]")) (Some (mkOpcode 0x65 "Word Register, Mod."))));
    ("STXW", EGroup (mkOpcodeGroup
       (Some (mkOpcode 0x68 "Store Location")) (Some (mkOpcode 0x69 "Direct"))
       (Some (mkOpcode 0x6A "[Indirect]")) (Some (mkOpcode 0x6B "PC+N"))
       (Some (mkOpcode 0x6C "[PC+N]")) (Some (mkOpcode 0x6D "Word Register, Mod."))));
    ("JMP", EGroup (mkOpcodeGroup
       (Some (mkOpcode 0x70 "#Literal")) (Some (mkOpcode 0x71 "Direct"))
       (Some (mkOpcode 0x72 "[Indirect]")) (Some (mkOpcode 0x73 "PC+N"))
       (Some (mkOpcode 0x74 "[PC+N]")) (Some (mkOpcode 0x75 "Word Register, Mod."))));
    ("SYSCALL", EOpcode (mkOpcode 0x76 ""));
    ("JSR", EGroup (mkOpcodeGroup
       (Some (mkOpcode 0x78 "#Literal")) (Some (mkOpcode 0x79 "Direct"))
       (Some (mkOpcode 0x7A "[Indirect]")) (Some (mkOpcode 0x7B "PC+N"))
       (Some (mkOpcode 0x7C "[PC+N]")) (Some (mkOpcode 0x7D "Word Register, Mod."))));
    ("LDAL", EGroup (mkOpcodeGroup
       (Some (mkOpcode 0x80 "#Literal")) (Some (mkOpcode 0x81 "Direct"))
       (Some (mkOpcode 0x82 "[Indirect]")) (Some (mkOpcode 0x83 "PC+N"))
       (Some (mkOpcode 0x84 "[PC+N]")) (Some (mkOpcode 0x85 "Word Register, Mod."))));
    ("LALA", EOpcode (mkOpcode 0x88 ""));
    ("LALB", EOpcode (mkOpcode 0x89 ""));
    ("LALX", EOpcode (mkOpcode 0x8A ""));
    ("LALY", EOpcode (mkOpcode 0x8B ""));
    ("LALZ", EOpcode (mkOpcode 0x8C ""));
    ("LALS", EOpcode (mkOpcode 0x8D ""));
    ("LALC", EOpcode (mkOpcode 0x8E ""));
    ("LALP", EOpcode (mkOpcode 0x8F ""));
    ("LDAW", EGroup (mkOpcodeGroup
       (Some (mkOpcode 0x90 "#Literal")) (Some (mkOpcode 0x91 "Direct"))
       (Some (mkOpcode 0x92 "[Indirect]")) (Some (mkOpcode 0x93 "PC+N"))
       (Some (mkOpcode 0x94 "[PC+N]")) (Some (mkOpcode 0x95 "Word Register, Mod."))));
    ("LAWA", EOpcode (mkOpcode 0x98 ""));
    ("LAWB", EOpcode (mkOpcode 0x99 ""));
    ("LAWX", EOpcode (mkOpcode 0x9A ""));
    ("LAWY", EOpcode (mkOpcode 0x9B ""));
    ("LAWZ", EOpcode (mkOpcode 0x9C ""));
    ("LAWS", EOpcode (mkOpcode 0x9D ""));
    ("LAWC", EOpcode (mkOpcode 0x9E ""));
    ("LAWP", EOpcode (mkOpcode 0x9F ""));
    ("STAL", EGroup (mkOpcodeGroup
       (Some (mkOpcode 0xA0 "Store Location")) (Some (mkOpcode 0xA1 "Direct"))
       (Some (mkOpcode 0xA2 "[Indirect]")) (Some (mkOpcode 0xA3 "PC+N"))
       (Some (mkOpcode 0xA4 "[PC+N]")) (Some (mkOpcode 0xA5 "Word Register, Mod."))));
    ("SALA", EOpcode (mkOpcode 0xA8 ""));
    ("SALB", EOpcode (mkOpcode 0xA9 ""));
    ("SALX", EOpcode (mkOpcode 0xAA ""));
    ("SALY", EOpcode (mkOpcode 0xAB ""));
    ("SALZ", EOpcode (mkOpcode 0xAC ""));
    ("SALS", EOpcode (mkOpcode 0xAD ""));
    ("SALC", EOpcode (mkOpcode 0xAE ""));
    ("SALP", EOpcode (mkOpcode 0xAF ""));
    ("STAW", EGroup (mkOpcodeGroup
       (Some (mkOpcode 0xB0 "Store Location")) (Some (mkOpcode 0xB1 "Direct"))
       (Some (mkOpcode 0xB2 "[Indirect]")) (Some (mkOpcode 0xB3 "PC+N"))
       (Some (mkOpcode 0xB4 "[PC+N]")) (Some (mkOpcode 0xB5 "Word Register, Mod."))));
    ("SAWA", EOpcode (mkOpcode 0xB8 ""));
    ("SAWB", EOpcode (mkOpcode 0xB9 ""));
    ("SAWX", EOpcode (mkOpcode 0xBA ""));
    ("SAWY", EOpcode (mkOpcode 0xBB ""));
    ("SAWZ", EOpcode (mkOpcode 0xBC ""));
    ("SAWS", EOpcode (mkOpcode 0xBD ""));
    ("SAWC", EOpcode (mkOpcode 0xBE ""));
    ("SAWP", EOpcode (mkOpcode 0xBF ""));
    ("LDBL", EGroup (mkOpcodeGroup
       (Some (mkOpcode 0xC0 "#Literal")) (Some (mkOpcode 0xC1 "Direct"))
       (Some (mkOpcode 0xC2 "[Indirect]")) (Some (mkOpcode 0xC3 "PC+N"))
       (Some (mkOpcode 0xC4 "[PC+N]")) (Some (mkOpcode 0xC5 "Word Register, Mod."))));
    ("LBLA", EOpcode (mkOpcode 0xC8 ""));
    ("LBLB", EOpcode (mkOpcode 0xC9 ""));
    ("LBLX", EOpcode (mkOpcode 0xCA ""));
    ("LBLY", EOpcode (mkOpcode 0xCB ""));
    ("LBLZ", EOpcode (mkOpcode 0xCC ""));
    ("LBLS", EOpcode (mkOpcode 0xCD ""));
    ("LBLC", EOpcode (mkOpcode 0xCE ""));
    ("LBLP", EOpcode (mkOpcode 0xCF ""));
    ("LDBW", EGroup (mkOpcodeGroup
       (Some (mkOpcode 0xD0 "#Literal")) (Some (mkOpcode 0xD1 "Direct"))
       (Some (mkOpcode 0xD2 "[Indirect]")) (Some (mkOpcode 0xD3 "PC+N"))
       (Some (mkOpcode 0xD4 "[PC+N]")) (Some (mkOpcode 0xD5 "Word Register, Mod."))));
    ("LBWA", EOpcode (mkOpcode 0xD8 ""));
    ("LBWB", EOpcode (mkOpcode 0xD9 ""));
    ("LBWX", EOpcode (mkOpcode 0xDA ""));
    ("LDBW", EOpcode (mkOpcode 0xDB ""));
    ("LBWZ", EOpcode (mkOpcode 0xDC ""));
    ("LBWS", EOpcode (mkOpcode 0xDD ""));
    ("LBWC", EOpcode (mkOpcode 0xDE ""));
    ("LBWP", EOpcode (mkOpcode 0xDF ""));
    ("STBL", EGroup (mkOpcodeGroup
       (Some (mkOpcode 0xE0 "Store Location")) (Some (mkOpcode 0xE1 "Direct"))
       (Some (mkOpcode 0xE2 "[Indirect]")) (Some (mkOpcode 0xE3 "PC+N"))
       (Some (mkOpcode 0xE4 "[PC+N]")) (Some (mkOpcode 0xE5 "Word Register, Mod."))));
    ("SBLA", EOpcode (mkOpcode 0xE8 ""));
    ("SBLB", EOpcode (mkOpcode 0xE9 ""));
    ("SBLX", EOpcode (mkOpcode 0xEA ""));
    ("SBLY", EOpcode (mkOpcode 0xEB ""));
    ("SBLZ", EOpcode (mkOpcode 0xEC ""));
    ("SBLS", EOpcode (mkOpcode 0xED ""));
    ("SBLC", EOpcode (mkOpcode 0xEE ""));
    ("SBLP", EOpcode (mkOpcode 0xEF ""));
    ("STBW", EGroup (mkOpcodeGroup
       (Some (mkOpcode 0xF0 "Store Location")) (Some (mkOpcode 0xF1 "Direct"))
       (Some (mkOpcode 0xF2 "[Indirect]")) (Some (mkOpcode 0xF3 "PC+N"))
       (Some (mkOpcode 0xF4 "[PC+N]")) (Some (mkOpcode 0xF5 "Word Register, Mod."))));
    ("SBWA", EOpcode (mkOpcode 0xF8 ""));
    ("SBWB", EOpcode (mkOpcode 0xF9 ""));
    ("SBWX", EOpcode (mkOpcode 0xFA ""));
    ("SBWY", EOpcode (mkOpcode 0xFB ""));
    ("SBWZ", EOpcode (mkOpcode 0xFC ""));
    ("SBWS", EOpcode (mkOpcode 0xFD ""));
    ("SBWC", EOpcode (mkOpcode 0xFE ""));
    ("SBWP", EOpcode (mkOpcode 0xFF ""))
  ].

(** Evaluation of a dictionary display: the pairs are inserted from left
    to right, and a key that comes again replaces the value stored for it. *)
Definition dict_of_display {V} (kvs : list (string * V)) : gmap string V :=
  foldl (fun d kv => <[kv.1 := kv.2]> d) ∅ kvs.

Definition MNEMONICS : gmap string Entry := dict_of_display MNEMONICS_display.


(** ** Text primitives *)

Definition LF : ascii := "010"%char.
Definition semicolon : ascii := ";"%char.

(** [str.isspace] of one character, and the class [\s] of [re] on a [str]
    pattern: TAB..CR, FS..US, space, NEL and NBSP. *)
Definition isspace (c : ascii) : bool :=
  let n := Z.of_N (N_of_ascii c) in
  (((9 <=? n) && (n <=? 13)) || ((28 <=? n) && (n <=? 31))
   || (n =? 32) || (n =? 133) || (n =? 160))%Z.

Fixpoint lstrip (s : string) : string :=
  match s with
  | EmptyString => EmptyString
  | String c s' => if isspace c then lstrip s' else s
  end.

Fixpoint rstrip (s : string) : string :=
  match s with
  | EmptyString => EmptyString
  | String c s' =>
      match rstrip s' with
      | EmptyString => if isspace c then EmptyString else String c EmptyString
      | r => String c r
      end
  end.

(** [str.strip()] with no argument. *)
Definition strip (s : string) : string := rstrip (lstrip s).

(** *** [line_cleaner = re.compile(r"^(.*?)(?:;.+)?$")]

    [.] matches any character but a newline; [$] matches at the end of the
    subject and just before a newline that ends it. *)

(** [$] at the head of [s]. *)
Definition at_eol (s : string) : bool :=
  match s with
  | EmptyString => true
  | String c EmptyString => bool_decide (c = LF)
  | _ => false
  end.

(** [.*$] on [s], greedy: the run of characters up to the first newline,
    then [$].  Giving back characters of the run cannot help [$], which
    needs the end of the subject or its final newline.  The result is what
    is left of the subject after the match. *)
Fixpoint dots_eol (s : string) : option string :=
  match s with
  | EmptyString => Some EmptyString
  | String c s' =>
      if bool_decide (c = LF) then (if at_eol s then Some s else None)
      else dots_eol s'
  end.

(** [;.+$] on [s]. *)
Definition comment_eol (s : string) : option string :=
  match s with
  | String c (String d s') =>
      if bool_decide (c = semicolon) && negb (bool_decide (d = LF))
      then dots_eol s' else None
  | _ => None
  end.

(** The whole pattern, anchored at the start of the subject.  The lazy
    group [(.*?)] is extended one character at a time; at each length the
    rest of the pattern is tried, the optional comment first (it is
    greedy), then without it.  The result is group 1 and what is left of
    the subject after the match. *)
Fixpoint line_cleaner_match (s : string) : option (string * string) :=
  match comment_eol s with
  | Some rest => Some (EmptyString, rest)
  | None =>
      if at_eol s then Some (EmptyString, s)
      else
        match s with
        | EmptyString => None
        | String c s' =>
            if bool_decide (c = LF) then None
            else
              match line_cleaner_match s' with
              | Some (g1, rest) => Some (String c g1, rest)
              | None => None
              end
        end
  end.

(** [line_cleaner.sub(r"\1", line)]: the pattern starts with [^], so the
    only match is at the start of the subject; it is replaced by group 1.
    Without a match the subject is returned as it is. *)
Definition line_cleaner_sub (line : string) : string :=
  match line_cleaner_match line with
  | Some (g1, rest) => g1 +:+ rest
  | None => line
  end.

(** [re.split(r"\s+", line)]: the fields between the maximal runs of
    white space; a run at either end of the subject gives an empty field
    there.  [in_sep] tells that the previous character was white space,
    [cur] is the field read so far. *)
Fixpoint re_split_go (in_sep : bool) (cur : string) (s : string) : list string :=
  match s with
  | EmptyString => [cur]
  | String c s' =>
      if isspace c then
        if in_sep then re_split_go true cur s'
        else cur :: re_split_go true EmptyString s'
      else re_split_go false (cur +:+ String c EmptyString) s'
  end.

Definition re_split (line : string) : list string :=
  re_split_go false EmptyString line.

(** [c in s] *)
Fixpoint has_char (c : ascii) (s : string) : bool :=
  match s with
  | EmptyString => false
  | String a s' => bool_decide (a = c) || has_char c s'
  end.

(** The two ways in which a line of a file ends. *)
Definition line_end (eol : string) : Prop :=
  eol = EmptyString ∨ eol = String LF EmptyString.

(** ** Python run time *)

(** The exceptions that the statements of the program can raise. *)
Inductive PyExn :=
| KeyError (key : string)
| IndexError
| FileNotFoundError (path : string)
| IsADirectoryError (path : string)
| PermissionError (path : string)
| UnicodeDecodeError.

Inductive Res (A : Type) :=
| Ok (a : A)
| Raise (e : PyExn).
Arguments Ok {A} a.
Arguments Raise {A} e.

(** Sequencing: an exception ends the statements that follow. *)
#[global] Instance Res_ret : MRet Res := @Ok.
#[global] Instance Res_bind : MBind Res := fun A B k r =>
  match r with
  | Ok a => k a
  | Raise e => Raise e
  end.

(** [d[key]] on a dictionary. *)
Definition getitem {V} (d : gmap string V) (key : string) : Res V :=
  match d !! key with
  | Some v => Ok v
  | None => Raise (KeyError key)
  end.

(** [l.pop(-1)]: the last element, and the list that is left. *)
Definition pop_last {A} (l : list A) : Res (A * list A) :=
  match last l with
  | Some x => Ok (x, removelast l)
  | None => Raise IndexError
  end.

(** Text mode with the default [newline=None]: [\r\n] and [\r] are read
    as [\n]. *)
Definition CR : ascii := "013"%char.

Fixpoint universal_newlines (s : string) : string :=
  match s with
  | EmptyString => EmptyString
  | String c s' =>
      if bool_decide (c = CR) then
        match s' with
        | String d s'' =>
            if bool_decide (d = LF) then String LF (universal_newlines s'')
            else String LF (universal_newlines s')
        | EmptyString => String LF EmptyString
        end
      else String c (universal_newlines s')
  end.

(** [for line in source]: every line keeps its newline; the last line of
    a text that does not end in a newline has none. *)
Fixpoint iter_lines (cur : string) (s : string) : list string :=
  match s with
  | EmptyString => if bool_decide (cur = EmptyString) then [] else [cur]
  | String c s' =>
      if bool_decide (c = LF) then (cur +:+ String LF EmptyString) :: iter_lines EmptyString s'
      else iter_lines (cur +:+ String c EmptyString) s'
  end.

Definition file_lines (text : string) : list string :=
  iter_lines EmptyString (universal_newlines text).

(** What [open(path, "r")] and the iteration over the file give for a
    path.  [open] decodes strictly, chunk by chunk, while the lines are
    read: a file with bytes that do not decode yields the lines of the
    chunks before them, then the iteration raises [UnicodeDecodeError]. *)
Inductive FileEntry :=
| TextFile (text : string)           (* every byte decodes; [text] is the result *)
| UndecodableFile (before : string)  (* [before]: the text decoded before the bad bytes *)
| Directory                          (* [open] raises [IsADirectoryError] *)
| Unreadable.                        (* [open] raises [PermissionError] *)

(** The lines that end in a newline: a line that is still open when the
    decoder fails is not given to the loop. *)
Definition complete_lines (text : string) : list string :=
  filter (fun line => has_char LF line = true) (file_lines text).

(** What is written on the error stream: a text that the program prints,
    or the traceback that the interpreter prints for an exception. *)
Inductive ErrOutput :=
| Printed (text : string)
| Traceback (e : PyExn).

(** What the process can see and change: the files by path, and what has
    been written on the error stream. *)
Record World := mkWorld {
  files : gmap string FileEntry;
  err_stream : list ErrOutput
}.

(** ** [assemble] *)

(** The local variable [out_buf] of [assemble], the only one that lives
    across the iterations of the loop; [line], [terms], [operand] and
    [mnemonic] are bound anew in each iteration before they are read. *)
Record Locals := mkLocals { out_buf : gmap string (list Z) }.

(** [out_buf = {"_default": []}] *)
Definition init_locals : Locals := mkLocals {[ "_default" := [] ]}.

(** The statement at which an iteration of the loop ends.  Python does
    not compute it; it is kept to state which way a line goes. *)
Inductive Path :=
| PBlank                    (* [if line == "": continue] *)
| PKeyError (operand : string) (* [except KeyError: continue] *)
| PGroup (g : OpcodeGroup)  (* [isinstance(mnemonic, OpcodeGroup)]: [pass] *)
| PPlain (o : Opcode).      (* [else]: [pass] *)

#[global] Instance Path_eq_dec : EqDecision Path.
Proof. solve_decision. Defined.

(** [line = line_cleaner.sub(r"\1", line).strip()] *)
Definition clean (line : string) : string := strip (line_cleaner_sub line).

(** The body of [for line in source]. *)
Definition loop_body (line : string) (st : Locals) : Res (Locals * Path) :=
  let line := clean line in
  if bool_decide (line = EmptyString) then Ok (st, PBlank)
  else
    let terms := re_split line in
    '(operand, terms) ← pop_last terms;
    match getitem MNEMONICS operand with
    | Raise (KeyError _) => Ok (st, PKeyError operand)
    | Raise e => Raise e
    | Ok (EGroup g) => Ok (st, PGroup g)
    | Ok (EOpcode o) => Ok (st, PPlain o)
    end.

(** The loop over the lines of the file. *)
Fixpoint assemble_loop (lines : list string) (st : Locals) : Res (Locals * list Path) :=
  match lines with
  | [] => Ok (st, [])
  | line :: lines' =>
      '(st', p) ← loop_body line st;
      '(st'', ps) ← assemble_loop lines' st';
      mret (st'', p :: ps)
  end.

(** [def assemble(file_name)]: [open(file_name, "r")] raises when the
    path does not open; the loop runs over the lines that are read, and
    the iteration raises after them when bytes do not decode; the function
    ends without a [return], so it gives [None], here [tt].  Nothing in it
    catches these exceptions, and nothing in it writes. *)
Definition assemble (file_name : string) (w : World) : Res unit * World :=
  match files w !! file_name with
  | None => (Raise (FileNotFoundError file_name), w)
  | Some Directory => (Raise (IsADirectoryError file_name), w)
  | Some Unreadable => (Raise (PermissionError file_name), w)
  | Some (TextFile text) =>
      match assemble_loop (file_lines text) init_locals with
      | Ok _ => (Ok tt, w)
      | Raise e => (Raise e, w)
      end
  | Some (UndecodableFile before) =>
      match assemble_loop (complete_lines before) init_locals with
      | Ok _ => (Raise UnicodeDecodeError, w)
      | Raise e => (Raise e, w)
      end
  end.

(** How the interpreter ends: the exit status, the exception that was not
    caught if there is one, and the world that is left. *)
Record Exit := mkExit {
  exit_code : Z;
  uncaught : option PyExn;
  world_after : World
}.

(** An exception that nothing catches: the interpreter writes its
    traceback on the error stream and exits with status 1.  The text of
    the traceback is not spelled out. *)
Definition uncaught_exit (e : PyExn) (w : World) : Exit :=
  mkExit 1 (Some e) (mkWorld (files w) (err_stream w ++ [Traceback e])).

(** [if __name__ == "__main__": file_name = sys.argv[1]; assemble(file_name)].
    The interpreter exits with status 0 at the end of the script. *)
Definition main (argv : list string) (w : World) : Exit :=
  match argv !! 1%nat with
  | None => uncaught_exit IndexError w
  | Some file_name =>
      match assemble file_name w with
      | (Ok _, w') => mkExit 0 None w'
      | (Raise e, w') => uncaught_exit e w'
      end
  end.

(** A source line as the file iterator gives it, with its newline. *)
Definition ln (s : string) : string := s +:+ String LF EmptyString.

(** The keys of the catalog under which a given value is found. *)
Definition keys_resolving_to (v : Entry) : list string :=
  (filter (fun kv => kv.2 = v) (map_to_list MNEMONICS)).*1.

(** The keys that a display binds again further on. *)
Fixpoint duplicate_keys {V} (kvs : list (string * V)) : list string :=
  match kvs with
  | [] => []
  | kv :: kvs' =>
      if bool_decide (kv.1 ∈ kvs'.*1) then kv.1 :: duplicate_keys kvs'
      else duplicate_keys kvs'
  end.

(** The first [LDBW] entry of the display, the [JMP] entry, and the two
    [INR] entries. *)
Definition LDBW_group : OpcodeGroup :=
  mkOpcodeGroup
    (Some (mkOpcode 0xD0 "#Literal")) (Some (mkOpcode 0xD1 "Direct"))
    (Some (mkOpcode 0xD2 "[Indirect]")) (Some (mkOpcode 0xD3 "PC+N"))
    (Some (mkOpcode 0xD4 "[PC+N]")) (Some (mkOpcode 0xD5 "Word Register, Mod.")).

Definition JMP_group : OpcodeGroup :=
  mkOpcodeGroup
    (Some (mkOpcode 0x70 "#Literal")) (Some (mkOpcode 0x71 "Direct"))
    (Some (mkOpcode 0x72 "[Indirect]")) (Some (mkOpcode 0x73 "PC+N"))
    (Some (mkOpcode 0x74 "[PC+N]")) (Some (mkOpcode 0x75 "Word Register, Mod.")).

Definition INR_byte : Opcode :=
  mkOpcode 0x20 "Byte Register in high nibble, unsigned constant in low nibble".

Definition INR_word : Opcode :=
  mkOpcode 0x30 "Word Register in high nibble, unsigned constant in low nibble".

(** The distances of the six opcodes of a group from its [literal] one. *)
Definition mode_offsets (g : OpcodeGroup) : option (list Z) :=
  l ← literal g; d ← direct g; i ← indirect g;
  pd ← pc_direct g; pi ← pc_indirect g; r ← register g;
  Some [instr l - instr l; instr d - instr l; instr i - instr l;
        instr pd - instr l; instr pi - instr l; instr r - instr l].

(** Programs and worlds used below. *)
Definition start_nop_bl_start : string := ln "START: NOP" +:+ ln "BL START".

Definition nop_foo_hlt : string := ln "NOP" +:+ ln "FOO" +:+ ln "HLT".

Definition world_with (text : string) : World :=
  mkWorld {[ "prog.asm" := TextFile text ]} [].

(** A world whose only file has bytes that do not decode, after [before]. *)
Definition world_with_undecodable (before : string) : World :=
  mkWorld {[ "prog.asm" := UndecodableFile before ]} [].

Definition argv_prog : list string := ["assembler.py"; "prog.asm"].

(** ** Predicates on text and on entries, for the statements below *)

(** Some character of [s] is white space; every character of [s] is. *)
Fixpoint has_space (s : string) : bool :=
  match s with
  | EmptyString => false
  | String c s' => isspace c || has_space s'
  end.

Fixpoint all_space (s : string) : bool :=
  match s with
  | EmptyString => true
  | String c s' => isspace c && all_space s'
  end.

(** [s] is not empty and its first character is not white space. *)
Definition starts_nonspace (s : string) : bool :=
  match s with
  | EmptyString => false
  | String c _ => negb (isspace c)
  end.

(** ["".join(lines)] *)
Definition concat_strings (l : list string) : string :=
  foldr String.append EmptyString l.

(** An upper-case letter or a digit, and the strings made of them. *)
Definition is_upper_or_digit (c : ascii) : bool :=
  let n := Z.of_N (N_of_ascii c) in
  (((65 <=? n) && (n <=? 90)) || ((48 <=? n) && (n <=? 57)))%Z.

Fixpoint all_upper_or_digit (s : string) : bool :=
  match s with
  | EmptyString => true
  | String c s' => is_upper_or_digit c && all_upper_or_digit s'
  end.

(** The opcodes that an entry of the catalog holds. *)
Definition entry_opcodes (e : Entry) : list Opcode :=
  match e with
  | EOpcode o => [o]
  | EGroup g =>
      omap id [literal g; direct g; indirect g;
               pc_direct g; pc_indirect g; register g]
  end.

(** ** The catalog *)

Lemma dict_of_display_lookup {V} (kvs : list (string * V)) k v :
  dict_of_display kvs !! k = Some v → (k, v) ∈ kvs.
Proof.
  unfold dict_of_display.
  assert (∀ d : gmap string V,
    foldl (fun d kv => <[kv.1 := kv.2]> d) d kvs !! k = Some v →
    d !! k = Some v ∨ (k, v) ∈ kvs) as H.
  { induction kvs as [|[k' v'] kvs IH]; intros d Hd; simpl in *; [by left|].
    destruct (IH _ Hd) as [Hi|Hi].
    - destruct (decide (k' = k)) as [->|Hne].
      + rewrite lookup_insert_eq in Hi. inversion Hi; subst. right. left.
      + rewrite lookup_insert_ne in Hi by done. by left.
    - right. by right. }
  intros Hk. destruct (H ∅ Hk) as [Hi|Hi]; [|done].
  by rewrite lookup_empty in Hi.
Qed.

(** Every binding of the catalog is written in the display. *)
Lemma MNEMONICS_lookup_display k v :
  MNEMONICS !! k = Some v → (k, v) ∈ MNEMONICS_display.
Proof. apply dict_of_display_lookup. Qed.

Lemma MNEMONICS_forallb (f : string * Entry → bool) :
  forallb f MNEMONICS_display = true →
  ∀ k v, MNEMONICS !! k = Some v → f (k, v) = true.
Proof.
  intros Hf k v Hk. rewrite forallb_forall in Hf.
  by apply Hf, list_elem_of_In, MNEMONICS_lookup_display.
Qed.

Lemma keys_resolving_to_spec k v :
  k ∈ keys_resolving_to v ↔ MNEMONICS !! k = Some v.
Proof.
  unfold keys_resolving_to. rewrite list_elem_of_fmap. split.
  - intros ([k' v'] & -> & Hin). apply list_elem_of_filter in Hin as [Hv Hin].
    simpl in *. subst. by apply elem_of_map_to_list in Hin.
  - intros Hk. exists (k, v). split; [done|].
    apply list_elem_of_filter. split; [done|]. by apply elem_of_map_to_list.
Qed.

Lemma keys_resolving_to_nil k v :
  keys_resolving_to v = [] → MNEMONICS !! k ≠ Some v.
Proof.
  intros Hnil Hk. apply keys_resolving_to_spec in Hk.
  rewrite Hnil in Hk. by apply not_elem_of_nil in Hk.
Qed.

(** From here on the catalog is looked up, not unfolded. *)
#[global] Opaque MNEMONICS.

(** ** The text primitives on examples *)

Example clean_ex_comment : clean (ln "NOP ; comment") = "NOP".
Proof. vm_compute. reflexivity. Qed.

Example clean_ex_first_semicolon : clean (ln "  JMP ;a;b") = "JMP".
Proof. vm_compute. reflexivity. Qed.

Example re_split_two : re_split "BL   START" = ["BL"; "START"].
Proof. vm_compute. reflexivity. Qed.

Example re_split_ends : re_split " a " = [""; "a"; ""].
Proof. vm_compute. reflexivity. Qed.

Example file_lines_crlf :
  file_lines ("NOP" +:+ String CR (String LF "HLT")) = [ln "NOP"; "HLT"].
Proof. vm_compute. reflexivity. Qed.

Example file_lines_two :
  file_lines (ln "START: NOP" +:+ "BL START") = [ln "START: NOP"; "BL START"].
Proof. vm_compute. reflexivity. Qed.

(** ** [str.strip] *)

Lemma append_cons c s t : String c s +:+ t = String c (s +:+ t).
Proof. reflexivity. Qed.

Lemma append_empty_r s : s +:+ EmptyString = s.
Proof.
  induction s as [|c s IH]; [done|]. by rewrite append_cons, IH.
Qed.

Lemma rstrip_app_space s c :
  isspace c = true → rstrip (s +:+ String c EmptyString) = rstrip s.
Proof.
  intros Hc. induction s as [|a s IH].
  - cbv [String.append]. simpl. by rewrite Hc.
  - rewrite append_cons. simpl. by rewrite IH.
Qed.

Lemma strip_app_space s c :
  isspace c = true → strip (s +:+ String c EmptyString) = strip s.
Proof.
  intros Hc. unfold strip. induction s as [|a s IH].
  - cbv [String.append]. simpl. by rewrite Hc.
  - rewrite append_cons. simpl. destruct (isspace a); [done|].
    rewrite <- append_cons. by apply rstrip_app_space.
Qed.

(** The newline that ends a line goes with the white space. *)
Lemma strip_line_end s eol : line_end eol → strip (s +:+ eol) = strip s.
Proof.
  intros [->| ->].
  - by rewrite append_empty_r.
  - by apply strip_app_space.
Qed.

(** ** [line_cleaner] *)

Lemma has_char_cons_false c a s :
  has_char c (String a s) = false → a ≠ c ∧ has_char c s = false.
Proof.
  simpl. intros H. apply orb_false_iff in H as [H1 H2].
  split; [by apply bool_decide_eq_false_1 in H1|done].
Qed.

Lemma line_cleaner_match_eq s :
  line_cleaner_match s =
    match comment_eol s with
    | Some rest => Some (EmptyString, rest)
    | None =>
        if at_eol s then Some (EmptyString, s)
        else
          match s with
          | EmptyString => None
          | String c s' =>
              if bool_decide (c = LF) then None
              else
                match line_cleaner_match s' with
                | Some (g1, rest) => Some (String c g1, rest)
                | None => None
                end
          end
    end.
Proof. by destruct s. Qed.

Lemma comment_eol_other c s : c ≠ semicolon → comment_eol (String c s) = None.
Proof.
  intros Hc. destruct s as [|d s]; simpl; [done|].
  by rewrite bool_decide_eq_false_2.
Qed.

Lemma at_eol_other c s : c ≠ LF → at_eol (String c s) = false.
Proof.
  intros Hc. destruct s as [|d s]; simpl; [|done].
  by rewrite bool_decide_eq_false_2.
Qed.

Lemma dots_eol_line_end rest eol :
  has_char LF rest = false → line_end eol → dots_eol (rest +:+ eol) = Some eol.
Proof.
  intros Hrest Heol. induction rest as [|c rest IH].
  - by destruct Heol as [->| ->].
  - apply has_char_cons_false in Hrest as [Hc Hrest].
    rewrite append_cons. cbn [dots_eol].
    rewrite bool_decide_eq_false_2 by done. auto.
Qed.

Lemma line_cleaner_match_line_end eol :
  line_end eol → line_cleaner_match eol = Some (EmptyString, eol).
Proof. by intros [->| ->]. Qed.

(** The steps of the lazy group over a character that is neither a
    semicolon nor a newline. *)
Lemma line_cleaner_match_step c s g1 rest :
  c ≠ semicolon → c ≠ LF →
  line_cleaner_match s = Some (g1, rest) →
  line_cleaner_match (String c s) = Some (String c g1, rest).
Proof.
  intros Hs Hl Hm. rewrite line_cleaner_match_eq.
  rewrite comment_eol_other, at_eol_other by done.
  by rewrite bool_decide_eq_false_2, Hm.
Qed.

(** A line without a semicolon is matched whole. *)
Lemma line_cleaner_match_no_semicolon body eol :
  has_char semicolon body = false → has_char LF body = false → line_end eol →
  line_cleaner_match (body +:+ eol) = Some (body, eol).
Proof.
  intros Hs Hl Heol. induction body as [|c body IH].
  - by apply line_cleaner_match_line_end.
  - apply has_char_cons_false in Hs as [Hc1 Hs].
    apply has_char_cons_false in Hl as [Hc2 Hl].
    rewrite append_cons. apply line_cleaner_match_step; auto.
Qed.

(** When a character follows the first semicolon, group 1 is what stands
    before that semicolon. *)
Lemma line_cleaner_match_comment pre d rest eol :
  has_char semicolon pre = false → has_char LF pre = false →
  d ≠ LF → has_char LF rest = false → line_end eol →
  line_cleaner_match (pre +:+ String semicolon (String d rest) +:+ eol)
    = Some (pre, eol).
Proof.
  intros Hs Hl Hd Hrest Heol. induction pre as [|c pre IH].
  - rewrite line_cleaner_match_eq.
    change (EmptyString +:+ String semicolon (String d rest) +:+ eol)
      with (String semicolon (String d (rest +:+ eol))).
    cbn [comment_eol]. rewrite bool_decide_eq_true_2 by done.
    rewrite bool_decide_eq_false_2 by done. cbn [negb andb].
    by rewrite dots_eol_line_end.
  - apply has_char_cons_false in Hs as [Hc1 Hs].
    apply has_char_cons_false in Hl as [Hc2 Hl].
    rewrite append_cons. apply line_cleaner_match_step; auto.
Qed.

(** When the first semicolon ends the line, it stays in group 1. *)
Lemma line_cleaner_match_bare_semicolon pre eol :
  has_char semicolon pre = false → has_char LF pre = false → line_end eol →
  line_cleaner_match (pre +:+ String semicolon EmptyString +:+ eol)
    = Some (pre +:+ String semicolon EmptyString, eol).
Proof.
  intros Hs Hl Heol. induction pre as [|c pre IH].
  - by destruct Heol as [->| ->].
  - apply has_char_cons_false in Hs as [Hc1 Hs].
    apply has_char_cons_false in Hl as [Hc2 Hl].
    rewrite !append_cons. apply line_cleaner_match_step; auto.
Qed.

(** [clean] on the three kinds of lines. *)
Lemma clean_no_semicolon body eol :
  has_char semicolon body = false → has_char LF body = false → line_end eol →
  clean (body +:+ eol) = strip body.
Proof.
  intros Hs Hl Heol. unfold clean, line_cleaner_sub.
  rewrite line_cleaner_match_no_semicolon by done.
  by apply strip_line_end.
Qed.

Lemma clean_comment pre d rest eol :
  has_char semicolon pre = false → has_char LF pre = false →
  d ≠ LF → has_char LF rest = false → line_end eol →
  clean (pre +:+ String semicolon (String d rest) +:+ eol) = strip pre.
Proof.
  intros Hs Hl Hd Hrest Heol. unfold clean, line_cleaner_sub.
  rewrite line_cleaner_match_comment by done.
  by apply strip_line_end.
Qed.

Lemma clean_bare_semicolon pre eol :
  has_char semicolon pre = false → has_char LF pre = false → line_end eol →
  clean (pre +:+ String semicolon EmptyString +:+ eol)
    = strip (pre +:+ String semicolon EmptyString).
Proof.
  intros Hs Hl Heol. unfold clean, line_cleaner_sub.
  rewrite line_cleaner_match_bare_semicolon by done.
  by apply strip_line_end.
Qed.

(** A line without a newline inside has no semicolon, or one that ends
    it, or one that a character follows. *)
Lemma first_semicolon body :
  has_char LF body = false →
  has_char semicolon body = false
  ∨ (∃ pre, body = pre +:+ String semicolon EmptyString
            ∧ has_char semicolon pre = false ∧ has_char LF pre = false)
  ∨ (∃ pre d rest, body = pre +:+ String semicolon (String d rest)
            ∧ has_char semicolon pre = false ∧ has_char LF pre = false
            ∧ d ≠ LF ∧ has_char LF rest = false).
Proof.
  induction body as [|c body IH]; intros Hl; [by left|].
  apply has_char_cons_false in Hl as [Hc Hl].
  destruct (decide (c = semicolon)) as [->|Hne].
  - right. destruct body as [|d rest].
    + left. by exists EmptyString.
    + right. apply has_char_cons_false in Hl as [Hd Hl].
      by exists EmptyString, d, rest.
  - assert (has_char semicolon (String c EmptyString) = false) as Hc1.
    { simpl. by rewrite bool_decide_eq_false_2. }
    destruct (IH Hl) as [Hs|[(pre & -> & Hs & Hp)|(pre & d & rest & -> & Hs & Hp & Hd & Hr)]].
    + left. simpl. by rewrite bool_decide_eq_false_2, Hs.
    + right. left. exists (String c pre). rewrite append_cons.
      split; [done|]. simpl. by rewrite !bool_decide_eq_false_2, Hs, Hp.
    + right. right. exists (String c pre), d, rest. rewrite append_cons.
      split; [done|]. simpl. by rewrite !bool_decide_eq_false_2, Hs, Hp.
Qed.

(** ** The lines of a file *)

Lemma has_char_app_one c s a :
  has_char c s = false → a ≠ c →
  has_char c (s +:+ String a EmptyString) = false.
Proof.
  intros Hs Ha. induction s as [|b s IH].
  - cbv [String.append]. simpl. by rewrite bool_decide_eq_false_2.
  - apply has_char_cons_false in Hs as [Hb Hs]. rewrite append_cons. simpl.
    by rewrite bool_decide_eq_false_2, IH.
Qed.

Lemma iter_lines_shape cur s line :
  has_char LF cur = false →
  line ∈ iter_lines cur s →
  ∃ body eol, line = body +:+ eol ∧ has_char LF body = false ∧ line_end eol.
Proof.
  revert cur. induction s as [|c s IH]; intros cur Hcur Hin; simpl in Hin.
  - case_bool_decide; [by apply not_elem_of_nil in Hin|].
    apply list_elem_of_singleton in Hin as ->.
    exists cur, EmptyString. rewrite append_empty_r. by repeat split; [|left].
  - case_bool_decide as Hc.
    + apply elem_of_cons in Hin as [->|Hin].
      * exists cur, (String LF EmptyString). by repeat split; [|right].
      * by apply (IH EmptyString).
    + apply (IH (cur +:+ String c EmptyString)); [|done].
      by apply has_char_app_one.
Qed.

(** Every line that the file iterator gives is a run of characters
    without a newline, followed by a newline or, at the end of the file,
    by nothing. *)
Lemma file_lines_shape text line :
  line ∈ file_lines text →
  ∃ body eol, line = body +:+ eol ∧ has_char LF body = false ∧ line_end eol.
Proof. by apply iter_lines_shape. Qed.

(** ** [re.split] and [pop] *)

Lemma re_split_go_not_nil in_sep cur s : re_split_go in_sep cur s ≠ [].
Proof.
  revert in_sep cur. induction s as [|c s IH]; intros in_sep cur; simpl.
  - discriminate.
  - destruct (isspace c); [destruct in_sep|]; auto; discriminate.
Qed.

Lemma pop_last_not_nil {A} (l : list A) :
  l ≠ [] → ∃ x r, pop_last l = Ok (x, r).
Proof.
  intros Hl. unfold pop_last.
  destruct (last l) as [x|] eqn:E.
  - eauto.
  - apply last_None in E. contradiction.
Qed.

(** [terms.pop(-1)] never raises [IndexError]: [re.split] gives at least
    one field. *)
Lemma pop_last_re_split s : ∃ x r, pop_last (re_split s) = Ok (x, r).
Proof. apply pop_last_not_nil, re_split_go_not_nil. Qed.

(** ** The loop *)

(** An iteration ends normally, whatever the line, and leaves [out_buf]
    as it was. *)
Lemma loop_body_total line st : ∃ p, loop_body line st = Ok (st, p).
Proof.
  unfold loop_body. case_bool_decide; [eauto|].
  destruct (pop_last_re_split (clean line)) as (x & r & ->). simpl.
  unfold getitem. destruct (MNEMONICS !! x) as [[o|g]|]; eauto.
Qed.

Lemma assemble_loop_total lines st :
  ∃ ps, assemble_loop lines st = Ok (st, ps) ∧ length ps = length lines.
Proof.
  induction lines as [|line lines IH]; simpl.
  - exists []. done.
  - destruct (loop_body_total line st) as [p ->]. simpl.
    destruct IH as (ps & -> & Hlen). simpl.
    exists (p :: ps). simpl. by rewrite Hlen.
Qed.

Lemma assemble_loop_cons line lines st p ps :
  loop_body line st = Ok (st, p) →
  assemble_loop lines st = Ok (st, ps) →
  assemble_loop (line :: lines) st = Ok (st, p :: ps).
Proof. intros H1 H2. simpl. rewrite H1. simpl. rewrite H2. done. Qed.

Lemma assemble_loop_app l1 l2 st ps1 ps2 :
  assemble_loop l1 st = Ok (st, ps1) →
  assemble_loop l2 st = Ok (st, ps2) →
  assemble_loop (l1 ++ l2) st = Ok (st, ps1 ++ ps2).
Proof.
  revert ps1. induction l1 as [|line l1 IH]; intros ps1 H1 H2; simpl in *.
  - by inversion H1.
  - destruct (loop_body_total line st) as [p Hp]. rewrite Hp in *. simpl in *.
    destruct (assemble_loop_total l1 st) as (ps & Hps & _).
    rewrite Hps in H1. simpl in H1. inversion H1; subst.
    rewrite (IH ps Hps H2). done.
Qed.

Lemma out_buf_init_default : out_buf init_locals !! "_default" = Some [].
Proof. apply lookup_singleton_eq. Qed.

(** [assemble] on a file that opens and decodes returns [None] and
    changes nothing. *)
Lemma assemble_returns file_name text w :
  files w !! file_name = Some (TextFile text) → assemble file_name w = (Ok tt, w).
Proof.
  intros Hf. unfold assemble. rewrite Hf.
  by destruct (assemble_loop_total (file_lines text) init_locals) as (ps & -> & _).
Qed.


(** The key that an iteration looks up is the last field of the cleaned
    line, and the lookup alone decides how the iteration ends. *)
Lemma loop_body_operand line st operand :
  clean line ≠ EmptyString →
  last (re_split (clean line)) = Some operand →
  loop_body line st =
    Ok (st, match MNEMONICS !! operand with
            | Some (EOpcode o) => PPlain o
            | Some (EGroup g) => PGroup g
            | None => PKeyError operand
            end).
Proof.
  intros Hne Hlast. unfold loop_body.
  rewrite bool_decide_eq_false_2 by done.
  unfold pop_last. rewrite Hlast. simpl.
  unfold getitem. by destruct (MNEMONICS !! operand) as [[o|g]|].
Qed.

(** A label declaration is no key of the catalog: its line ends in the
    [KeyError] handler. *)
Example loop_body_label st :
  loop_body (ln "START:") st = Ok (st, PKeyError "START:").
Proof.
  rewrite (loop_body_operand (ln "START:") st "START:").
  - replace (MNEMONICS !! "START:") with (@None Entry); [done|].
    vm_compute. reflexivity.
  - vm_compute. discriminate.
  - vm_compute. reflexivity.
Qed.

(** A line made of a key of the catalog and its newline is cleaned to the
    key, which is its only field. *)
Lemma MNEMONICS_key_line k v :
  MNEMONICS !! k = Some v →
  clean (ln k) = k ∧ re_split k = [k] ∧ k ≠ EmptyString.
Proof.
  intros Hk.
  pose proof (MNEMONICS_forallb
    (fun kv => bool_decide (clean (ln kv.1) = kv.1 ∧ re_split kv.1 = [kv.1]
                            ∧ kv.1 ≠ EmptyString))) as H.
  apply (bool_decide_eq_true_1 _), (H ltac:(vm_compute; reflexivity) k v Hk).
Qed.

(** ** The catalog: mode families and overwritten keys *)

(** C3. Every mode family that the catalog holds has its six opcodes in
    a row: [direct] is [literal + 1], [indirect] is [literal + 2],
    [pc_direct] is [literal + 3], [pc_indirect] is [literal + 4] and
    [register] is [literal + 5]. *)
Theorem mode_family_offsets (k : string) (g : OpcodeGroup) :
  MNEMONICS !! k = Some (EGroup g) →
  ∃ l d i pd pi r,
    literal g = Some l ∧ direct g = Some d ∧ indirect g = Some i ∧
    pc_direct g = Some pd ∧ pc_indirect g = Some pi ∧ register g = Some r ∧
    instr d = instr l + 1 ∧ instr i = instr l + 2 ∧ instr pd = instr l + 3 ∧
    instr pi = instr l + 4 ∧ instr r = instr l + 5.
Proof.
  intros Hk.
  pose proof (MNEMONICS_forallb
    (fun kv => match kv.2 with
               | EGroup g => bool_decide (mode_offsets g = Some [0; 1; 2; 3; 4; 5])
               | EOpcode _ => true
               end)) as H.
  specialize (H ltac:(vm_compute; reflexivity) k _ Hk). cbn [snd] in H.
  apply bool_decide_eq_true_1 in H. unfold mode_offsets in H.
  destruct (literal g) as [l|]; [|discriminate H].
  destruct (direct g) as [d|]; [|discriminate H].
  destruct (indirect g) as [i|]; [|discriminate H].
  destruct (pc_direct g) as [pd|]; [|discriminate H].
  destruct (pc_indirect g) as [pi|]; [|discriminate H].
  destruct (register g) as [r|]; [|discriminate H].
  exists l, d, i, pd, pi, r. cbn in H. inversion H.
  repeat split; lia.
Qed.

Lemma mode_family_offsets_JMP :
  MNEMONICS !! "JMP" = Some (EGroup JMP_group) ∧
  ∃ l d i pd pi r,
    literal JMP_group = Some l ∧ direct JMP_group = Some d ∧
    indirect JMP_group = Some i ∧ pc_direct JMP_group = Some pd ∧
    pc_indirect JMP_group = Some pi ∧ register JMP_group = Some r ∧
    instr d = instr l + 1 ∧ instr i = instr l + 2 ∧ instr pd = instr l + 3 ∧
    instr pi = instr l + 4 ∧ instr r = instr l + 5.
Proof.
  split; [vm_compute; reflexivity|].
  apply (mode_family_offsets "JMP" JMP_group). vm_compute; reflexivity.
Defined.

(** C10. The key [LDBW] is written twice in the display.  The catalog
    keeps the second value, the plain opcode 0xDB; the mode family with
    base 0xD0 is found under no key, and there is no key [LBWY]. *)
Theorem LDBW_overwritten :
  ("LDBW", EGroup LDBW_group) ∈ MNEMONICS_display ∧
  MNEMONICS !! "LDBW" = Some (EOpcode (mkOpcode 0xDB "")) ∧
  keys_resolving_to (EGroup LDBW_group) = [] ∧
  MNEMONICS !! "LBWY" = None.
Proof.
  split; [|split; [|split]]; [|vm_compute; reflexivity..].
  apply (bool_decide_unpack _). vm_compute. exact I.
Qed.

(** C6. Building the catalog reports no collision: the display writes 165
    pairs, fifteen keys among them twice, and the dictionary holds 150
    keys.  [INR] is written for the byte registers (0x20) and for the word
    registers (0x30); the catalog gives the word opcode for it and the
    byte opcode is found under no key. *)
Theorem duplicate_keys_overwritten :
  length MNEMONICS_display = 165%nat ∧
  size MNEMONICS = 150%nat ∧
  duplicate_keys MNEMONICS_display =
    ["INR"; "DCR"; "CLR"; "IVR"; "SRR"; "SLR"; "RRR"; "RLR";
     "ADD"; "SUB"; "AND"; "ORI"; "ORE"; "XFR"; "LDBW"] ∧
  ("INR", EOpcode INR_byte) ∈ MNEMONICS_display ∧
  ("INR", EOpcode INR_word) ∈ MNEMONICS_display ∧
  MNEMONICS !! "INR" = Some (EOpcode INR_word) ∧
  keys_resolving_to (EOpcode INR_byte) = [].
Proof.
  repeat split; try (vm_compute; reflexivity);
    apply (bool_decide_unpack _); vm_compute; exact I.
Qed.

(** ** What a run of [assemble] does *)

(** C9, as the code has it.  On every file that opens and whose bytes
    all decode, [assemble] returns [None] and leaves the world as it was:
    nothing is written and nothing is printed.  The loop ends normally on
    every line, with one path per line, and [out_buf] is
    [{"_default": []}] at the end as at the start; each iteration,
    whichever of its four paths it takes, leaves [out_buf] untouched. *)
Theorem assemble_no_observable_output (file_name text : string) (w : World) :
  files w !! file_name = Some (TextFile text) →
  assemble file_name w = (Ok tt, w) ∧
  (∃ ps, assemble_loop (file_lines text) init_locals = Ok (init_locals, ps)
         ∧ length ps = length (file_lines text)) ∧
  out_buf init_locals = {[ "_default" := [] ]} ∧
  (∀ line st, ∃ p, loop_body line st = Ok (st, p)).
Proof.
  intros Hf. split; [by eapply assemble_returns|].
  split; [apply assemble_loop_total|].
  split; [done|]. apply loop_body_total.
Qed.

Lemma assemble_no_observable_output_start :
  files (world_with start_nop_bl_start) !! "prog.asm"
    = Some (TextFile start_nop_bl_start) ∧
  assemble "prog.asm" (world_with start_nop_bl_start)
    = (Ok tt, world_with start_nop_bl_start) ∧
  (∃ ps, assemble_loop (file_lines start_nop_bl_start) init_locals
           = Ok (init_locals, ps)
         ∧ length ps = length (file_lines start_nop_bl_start)) ∧
  out_buf init_locals = {[ "_default" := [] ]} ∧
  (∀ line st, ∃ p, loop_body line st = Ok (st, p)).
Proof.
  split; [vm_compute; reflexivity|].
  apply (assemble_no_observable_output "prog.asm" start_nop_bl_start
           (world_with start_nop_bl_start)).
  vm_compute; reflexivity.
Defined.

(** C9 fails as stated.  On a file that opens but whose bytes do not
    decode (the bytes of [NOP], a newline and 0xFF, say: the first chunk
    fails, so no line is read before), [assemble] does not return [None]:
    the iteration raises [UnicodeDecodeError] and nothing catches it. *)
Lemma undecodable_file_raises :
  assemble "prog.asm" (world_with_undecodable EmptyString)
    = (Raise UnicodeDecodeError, world_with_undecodable EmptyString) ∧
  assemble "prog.asm" (world_with_undecodable EmptyString)
    ≠ (Ok tt, world_with_undecodable EmptyString).
Proof.
  assert (assemble "prog.asm" (world_with_undecodable EmptyString)
          = (Raise UnicodeDecodeError, world_with_undecodable EmptyString)) as E.
  { unfold assemble.
    replace (files (world_with_undecodable EmptyString) !! "prog.asm")
      with (Some (UndecodableFile EmptyString)) by (vm_compute; reflexivity).
    by destruct (assemble_loop_total (complete_lines EmptyString) init_locals)
      as (ps & -> & _). }
  split; [exact E|]. rewrite E. discriminate.
Qed.

(** C1, as the code has it.  On [START: NOP] followed by [BL START] the
    loop ends normally and [out_buf] is still [{"_default": []}]: no byte
    is emitted.  The catalog does hold opcode 0x01 for [NOP] and opcode
    0x10, with a [PC+N] operand, for [BL]. *)
Theorem start_nop_bl_start_emits_nothing :
  (∃ ps, assemble_loop (file_lines start_nop_bl_start) init_locals
           = Ok (init_locals, ps)) ∧
  out_buf init_locals !! "_default" = Some [] ∧
  MNEMONICS !! "NOP" = Some (EOpcode (mkOpcode 0x01 "")) ∧
  MNEMONICS !! "BL" = Some (EOpcode (mkOpcode 0x10 "PC+N")).
Proof.
  split.
  - destruct (assemble_loop_total (file_lines start_nop_bl_start) init_locals)
      as (ps & Hps & _). eauto.
  - split; [apply out_buf_init_default|]. split; vm_compute; reflexivity.
Qed.

(** C1 fails as stated: the run of the two-line program does not end with
    the bytes 0x01, 0x10, 0xFE in the output buffer. *)
Lemma start_nop_bl_start_not_01_10_FE :
  ¬ ∃ st ps,
      assemble_loop (file_lines start_nop_bl_start) init_locals = Ok (st, ps) ∧
      out_buf st !! "_default" = Some [0x01; 0x10; 0xFE].
Proof.
  intros (st & ps & Hrun & Hbuf).
  destruct (assemble_loop_total (file_lines start_nop_bl_start) init_locals)
    as (ps' & Hps & _).
  rewrite Hps in Hrun. inversion Hrun; subst.
  rewrite out_buf_init_default in Hbuf. discriminate Hbuf.
Qed.

(** C2, as the code has it.  For every plain opcode of the catalog, and so
    for every fixed mnemonic, the line made of the mnemonic alone takes the
    plain-opcode path with the entry of the catalog, whose [instr] is the
    base opcode, and leaves [out_buf] as it was: nothing is appended to
    it. *)
Theorem fixed_mnemonic_resolved_nothing_appended
    (k : string) (o : Opcode) (st : Locals) :
  MNEMONICS !! k = Some (EOpcode o) →
  loop_body (ln k) st = Ok (st, PPlain o).
Proof.
  intros Hk. destruct (MNEMONICS_key_line k _ Hk) as (Hc & Hs & Hne).
  rewrite (loop_body_operand (ln k) st k).
  - by rewrite Hk.
  - by rewrite Hc.
  - by rewrite Hc, Hs.
Qed.

Lemma fixed_mnemonic_resolved_nothing_appended_NOP :
  MNEMONICS !! "NOP" = Some (EOpcode (mkOpcode 0x01 "")) ∧
  loop_body (ln "NOP") init_locals = Ok (init_locals, PPlain (mkOpcode 0x01 "")).
Proof.
  split; [vm_compute; reflexivity|].
  apply (fixed_mnemonic_resolved_nothing_appended "NOP" (mkOpcode 0x01 "") init_locals).
  vm_compute; reflexivity.
Defined.

(** C2 fails as stated: [NOP] is a fixed mnemonic with base opcode 0x01,
    and the line [NOP] does not leave the byte 0x01 appended to the empty
    output buffer. *)
Lemma nop_line_appends_no_byte :
  MNEMONICS !! "NOP" = Some (EOpcode (mkOpcode 0x01 "")) ∧
  ¬ ∃ st p,
      loop_body (ln "NOP") init_locals = Ok (st, p) ∧
      out_buf st !! "_default" = Some ([] ++ [0x01]).
Proof.
  split; [vm_compute; reflexivity|].
  intros (st & p & Hrun & Hbuf).
  destruct (loop_body_total (ln "NOP") init_locals) as [p' Hp].
  rewrite Hp in Hrun. inversion Hrun; subst.
  rewrite out_buf_init_default in Hbuf. discriminate Hbuf.
Qed.

(** C4, at [BL START].  The cleaned line has the fields [BL] and [START];
    [BL] is a key of the catalog, yet the key looked up is the last field,
    [START], and the iteration ends in the [KeyError] handler. *)
Theorem bl_start_looks_up_last_field :
  re_split (clean (ln "BL START")) = ["BL"; "START"] ∧
  MNEMONICS !! "BL" = Some (EOpcode (mkOpcode 0x10 "PC+N")) ∧
  pop_last ["BL"; "START"] = Ok ("START", ["BL"]) ∧
  loop_body (ln "BL START") init_locals = Ok (init_locals, PKeyError "START").
Proof. repeat split; vm_compute; reflexivity. Qed.

(** ** The exit status *)

Lemma main_exit_0 argv w file_name text :
  argv !! 1%nat = Some file_name →
  files w !! file_name = Some (TextFile text) →
  main argv w = mkExit 0 None w.
Proof.
  intros Ha Hf. unfold main. rewrite Ha.
  by rewrite (assemble_returns file_name text w Hf).
Qed.






(** C7, as the code has it.  Whenever the file named by [sys.argv[1]]
    opens and all of its bytes decode, the exit status is 0, whatever the
    text is; no exception is left uncaught, the files are as they were, so
    no image is written, and the error stream is as it was, so no
    diagnostic is printed. *)
Theorem exit_status_0_nothing_written
    (argv : list string) (w : World) (file_name text : string) :
  argv !! 1%nat = Some file_name →
  files w !! file_name = Some (TextFile text) →
  exit_code (main argv w) = 0 ∧
  uncaught (main argv w) = None ∧
  files (world_after (main argv w)) = files w ∧
  err_stream (world_after (main argv w)) = err_stream w.
Proof. intros Ha Hf. by rewrite (main_exit_0 argv w file_name text Ha Hf). Qed.

Lemma exit_status_0_nothing_written_start :
  argv_prog !! 1%nat = Some "prog.asm" ∧
  files (world_with start_nop_bl_start) !! "prog.asm"
    = Some (TextFile start_nop_bl_start) ∧
  exit_code (main argv_prog (world_with start_nop_bl_start)) = 0 ∧
  uncaught (main argv_prog (world_with start_nop_bl_start)) = None ∧
  files (world_after (main argv_prog (world_with start_nop_bl_start)))
    = files (world_with start_nop_bl_start) ∧
  err_stream (world_after (main argv_prog (world_with start_nop_bl_start)))
    = err_stream (world_with start_nop_bl_start).
Proof.
  split; [reflexivity|]. split; [vm_compute; reflexivity|].
  apply (exit_status_0_nothing_written argv_prog (world_with start_nop_bl_start)
           "prog.asm" start_nop_bl_start).
  - reflexivity.
  - vm_compute; reflexivity.
Defined.

(** C7 fails as stated.  On the one-line program [NOP] the exit status is
    0 and the only file afterwards is the source: no image was written.
    On the one-line program [FOO], whose token is not in the catalog, the
    exit status is 0 as well, not 1, and nothing is on the error stream. *)
Lemma exit_0_without_image_or_diagnostic :
  exit_code (main argv_prog (world_with (ln "NOP"))) = 0 ∧
  files (world_after (main argv_prog (world_with (ln "NOP"))))
    = {[ "prog.asm" := TextFile (ln "NOP") ]} ∧
  MNEMONICS !! "FOO" = None ∧
  exit_code (main argv_prog (world_with (ln "FOO"))) = 0 ∧
  err_stream (world_after (main argv_prog (world_with (ln "FOO")))) = [].
Proof. repeat split; vm_compute; reflexivity. Qed.

(** ** Tokens that are not in the catalog *)

(** C5, as the code has it.  When the token that a line looks up is not a
    key of the catalog, the [KeyError] is caught and the iteration ends
    there with [out_buf] unchanged; the loop goes on with the lines that
    follow, and, the file being one that opens and decodes, the run ends
    with status 0, no exception and an unchanged world: nothing is
    recorded or printed for the line. *)
Theorem unknown_key_line_skipped
    (argv : list string) (w : World) (file_name text : string)
    (pre post : list string) (line operand : string) :
  argv !! 1%nat = Some file_name →
  files w !! file_name = Some (TextFile text) →
  file_lines text = pre ++ line :: post →
  clean line ≠ EmptyString →
  last (re_split (clean line)) = Some operand →
  MNEMONICS !! operand = None →
  loop_body line init_locals = Ok (init_locals, PKeyError operand) ∧
  (∃ ps1 ps2,
     length ps1 = length pre ∧ length ps2 = length post ∧
     assemble_loop (file_lines text) init_locals
       = Ok (init_locals, ps1 ++ PKeyError operand :: ps2)) ∧
  main argv w = mkExit 0 None w.
Proof.
  intros Ha Hf Hl Hne Hlast Hk.
  assert (loop_body line init_locals = Ok (init_locals, PKeyError operand)) as Hb.
  { rewrite (loop_body_operand line init_locals operand Hne Hlast). by rewrite Hk. }
  split; [done|]. split; [|by eapply main_exit_0].
  destruct (assemble_loop_total pre init_locals) as (ps1 & Hps1 & Hlen1).
  destruct (assemble_loop_total post init_locals) as (ps2 & Hps2 & Hlen2).
  exists ps1, ps2. split; [done|]. split; [done|].
  rewrite Hl. apply assemble_loop_app; [done|].
  by apply assemble_loop_cons.
Qed.

Lemma unknown_key_line_skipped_FOO :
  loop_body (ln "FOO") init_locals = Ok (init_locals, PKeyError "FOO") ∧
  (∃ ps1 ps2,
     length ps1 = length [ln "NOP"] ∧ length ps2 = length [ln "HLT"] ∧
     assemble_loop (file_lines nop_foo_hlt) init_locals
       = Ok (init_locals, ps1 ++ PKeyError "FOO" :: ps2)) ∧
  main argv_prog (world_with nop_foo_hlt) = mkExit 0 None (world_with nop_foo_hlt).
Proof.
  apply (unknown_key_line_skipped argv_prog (world_with nop_foo_hlt) "prog.asm"
           nop_foo_hlt [ln "NOP"] [ln "HLT"] (ln "FOO") "FOO").
  - reflexivity.
  - vm_compute; reflexivity.
  - vm_compute; reflexivity.
  - vm_compute; discriminate.
  - vm_compute; reflexivity.
  - vm_compute; reflexivity.
Defined.

(** C5 fails as stated.  The one-line program [FOO] looks up [FOO], which
    is not a key of the catalog; the run ends with status 0, no exception,
    and an empty error stream: no [UnknownMnemonicError] is in its
    result. *)
Lemma foo_line_no_diagnostic :
  last (re_split (clean (ln "FOO"))) = Some "FOO" ∧
  MNEMONICS !! "FOO" = None ∧
  loop_body (ln "FOO") init_locals = Ok (init_locals, PKeyError "FOO") ∧
  uncaught (main argv_prog (world_with (ln "FOO"))) = None ∧
  err_stream (world_after (main argv_prog (world_with (ln "FOO")))) = [] ∧
  exit_code (main argv_prog (world_with (ln "FOO"))) = 0.
Proof. repeat split; vm_compute; reflexivity. Qed.

(** ** Comments *)

(** C8, at [NOP ;].  The pattern asks for at least one character after the
    semicolon, so a semicolon that ends the line is kept: the cleaned line
    is [NOP ;], its last field is [;], and the iteration ends in the
    [KeyError] handler.  With a character after the semicolon the comment
    goes. *)
Theorem bare_semicolon_kept :
  line_cleaner_sub (ln "NOP ;") = ln "NOP ;" ∧
  clean (ln "NOP ;") = "NOP ;" ∧
  re_split (clean (ln "NOP ;")) = ["NOP"; ";"] ∧
  loop_body (ln "NOP ;") init_locals = Ok (init_locals, PKeyError ";") ∧
  clean (ln "NOP ;x") = "NOP".
Proof. repeat split; vm_compute; reflexivity. Qed.

(** ** The fields of a cleaned line *)

Lemma rstrip_idem s : rstrip (rstrip s) = rstrip s.
Proof.
  induction s as [|c s IH]; [done|]. simpl.
  destruct (rstrip s) as [|d r] eqn:E.
  - destruct (isspace c) eqn:Ec; simpl; [done|]. by rewrite Ec.
  - change (rstrip (String c (String d r))) with
      (match rstrip (String d r) with
       | EmptyString => if isspace c then EmptyString else String c EmptyString
       | r' => String c r'
       end).
    by rewrite IH.
Qed.

Lemma rstrip_cons_fix c s :
  rstrip (String c s) = String c s →
  rstrip s = s ∧ (isspace c = true → s ≠ EmptyString).
Proof.
  simpl. destruct (rstrip s) as [|d r] eqn:E.
  - destruct (isspace c) eqn:Ec; [discriminate|].
    intros H. inversion H; subst. split; [done|discriminate].
  - intros H. inversion H; subst. split; [done|]. discriminate.
Qed.

Lemma rstrip_starts s : starts_nonspace s = true → starts_nonspace (rstrip s) = true.
Proof.
  destruct s as [|c s]; [done|]. simpl. intros Hc.
  destruct (rstrip s); [|done].
  apply negb_true_iff in Hc. rewrite Hc. simpl. by rewrite Hc.
Qed.

Lemma lstrip_starts s : lstrip s = EmptyString ∨ starts_nonspace (lstrip s) = true.
Proof.
  induction s as [|c s IH]; [by left|]. simpl.
  destruct (isspace c) eqn:Ec; [done|]. right. simpl. by rewrite Ec.
Qed.

Lemma lstrip_fix s : starts_nonspace s = true → lstrip s = s.
Proof.
  destruct s as [|c s]; [done|]. simpl. intros Hc.
  apply negb_true_iff in Hc. by rewrite Hc.
Qed.

Lemma strip_starts s : strip s ≠ EmptyString → starts_nonspace (strip s) = true.
Proof.
  unfold strip. intros Hne. destruct (lstrip_starts s) as [E|E].
  - rewrite E in Hne. done.
  - by apply rstrip_starts.
Qed.

Lemma has_space_app_one s c :
  has_space s = false → isspace c = false →
  has_space (s +:+ String c EmptyString) = false.
Proof.
  intros Hs Hc. induction s as [|a s IH].
  - cbv [String.append]. simpl. by rewrite Hc.
  - rewrite append_cons. simpl in *. apply orb_false_iff in Hs as [Ha Hs].
    by rewrite Ha, IH.
Qed.

Lemma append_one_not_empty s c : s +:+ String c EmptyString ≠ EmptyString.
Proof. by destruct s. Qed.

Lemma re_split_go_no_space in_sep cur s :
  has_space cur = false →
  Forall (fun t => has_space t = false) (re_split_go in_sep cur s).
Proof.
  revert in_sep cur. induction s as [|c s IH]; intros in_sep cur Hcur; simpl.
  - by constructor.
  - destruct (isspace c) eqn:Ec.
    + destruct in_sep; [by apply IH|]. constructor; [done|]. by apply IH.
    + apply IH. by apply has_space_app_one.
Qed.

Lemma re_split_go_not_empty in_sep cur s :
  rstrip s = s →
  (cur = EmptyString →
   s ≠ EmptyString ∧ (in_sep = false → starts_nonspace s = true)) →
  Forall (fun t => t ≠ EmptyString) (re_split_go in_sep cur s).
Proof.
  revert in_sep cur. induction s as [|c s IH]; intros in_sep cur Hr Hcur; simpl.
  - constructor; [|done]. intros ->. by destruct (Hcur eq_refl).
  - apply rstrip_cons_fix in Hr as [Hr Hs].
    destruct (isspace c) eqn:Ec.
    + specialize (Hs eq_refl). destruct in_sep.
      * apply IH; [done|]. intros _. split; [done|]. discriminate.
      * constructor.
        -- intros ->. destruct (Hcur eq_refl) as [_ Hst].
           specialize (Hst eq_refl). simpl in Hst. by rewrite Ec in Hst.
        -- apply IH; [done|]. intros _. split; [done|]. discriminate.
    + apply IH; [done|]. intros Hc. by apply append_one_not_empty in Hc.
Qed.

Lemma strip_idem s : strip (strip s) = strip s.
Proof.
  destruct (decide (strip s = EmptyString)) as [E|Hne]; [by rewrite E|].
  unfold strip at 1. rewrite (lstrip_fix _ (strip_starts s Hne)).
  apply rstrip_idem.
Qed.

Lemma append_empty_l s : EmptyString +:+ s = s.
Proof. reflexivity. Qed.

Lemma rstrip_last s init d :
  rstrip s = init +:+ String d EmptyString → isspace d = false.
Proof.
  revert init. induction s as [|a s IH]; intros init H.
  - simpl in H. symmetry in H. by apply append_one_not_empty in H.
  - simpl in H. destruct (rstrip s) as [|b r] eqn:E.
    + destruct (isspace a) eqn:Ea.
      * symmetry in H. by apply append_one_not_empty in H.
      * destruct init as [|i init].
        -- rewrite append_empty_l in H. by inversion H; subst.
        -- rewrite append_cons in H. inversion H as [[Hi Hr]].
           symmetry in Hr. by apply append_one_not_empty in Hr.
    + destruct init as [|i init].
      * rewrite append_empty_l in H. inversion H.
      * rewrite append_cons in H. inversion H as [[Hi Hr]]. by apply (IH init).
Qed.

(** X1. The cleaned line neither begins nor ends with white space: its
    first character and its last character are not white space. *)
Theorem clean_first_last_not_space (line rest init : string) (c d : ascii) :
  clean line = String c rest →
  clean line = init +:+ String d EmptyString →
  isspace c = false ∧ isspace d = false.
Proof.
  intros Hfirst Hlast. split.
  - assert (clean line ≠ EmptyString) as Hne by (rewrite Hfirst; discriminate).
    pose proof (strip_starts (line_cleaner_sub line) Hne) as Hs.
    fold (clean line) in Hs. rewrite Hfirst in Hs. simpl in Hs.
    by apply negb_true_iff in Hs.
  - apply (rstrip_last (clean line) init). rewrite <- Hlast.
    unfold clean. apply rstrip_idem.
Qed.

Lemma clean_first_last_not_space_bl :
  clean (ln "  BL START  ") = String "B" "L START" ∧
  clean (ln "  BL START  ") = "BL STAR" +:+ String "T" EmptyString ∧
  isspace "B" = false ∧ isspace "T" = false.
Proof.
  assert (clean (ln "  BL START  ") = String "B" "L START") as H1
    by (vm_compute; reflexivity).
  assert (clean (ln "  BL START  ") = "BL STAR" +:+ String "T" EmptyString) as H2
    by (vm_compute; reflexivity).
  split; [exact H1|]. split; [exact H2|].
  exact (clean_first_last_not_space (ln "  BL START  ") "L START" "BL STAR"
           "B" "T" H1 H2).
Defined.

(** X2. On a line that is not blank once cleaned, every field that
    [re.split] gives is non-empty and free of white space; so is the one
    that [pop(-1)] takes and that is looked up in the catalog. *)
Theorem terms_not_empty_no_space (line : string) :
  clean line ≠ EmptyString →
  Forall (fun t => t ≠ EmptyString ∧ has_space t = false) (re_split (clean line))
  ∧ ∃ operand terms,
      pop_last (re_split (clean line)) = Ok (operand, terms)
      ∧ operand ≠ EmptyString ∧ has_space operand = false.
Proof.
  intros Hne.
  assert (Forall (fun t => t ≠ EmptyString ∧ has_space t = false)
            (re_split (clean line))) as HF.
  { apply Forall_and. split.
    - apply re_split_go_not_empty.
      + unfold clean. apply rstrip_idem.
      + intros _. split; [done|]. intros _. by apply strip_starts.
    - by apply re_split_go_no_space. }
  split; [done|].
  destruct (pop_last_re_split (clean line)) as (x & r & Hp).
  exists x, r. split; [done|].
  unfold pop_last in Hp. destruct (last (re_split (clean line))) as [y|] eqn:El;
    [|discriminate]. inversion Hp; subst.
  rewrite Forall_forall in HF. apply HF.
  apply last_Some in El as [l' ->]. apply elem_of_app. right. by left.
Qed.

Lemma terms_not_empty_no_space_bl :
  clean (ln "  BL   START ; go") ≠ EmptyString ∧
  Forall (fun t => t ≠ EmptyString ∧ has_space t = false)
    (re_split (clean (ln "  BL   START ; go")))
  ∧ ∃ operand terms,
      pop_last (re_split (clean (ln "  BL   START ; go"))) = Ok (operand, terms)
      ∧ operand ≠ EmptyString ∧ has_space operand = false.
Proof.
  split; [vm_compute; discriminate|].
  apply (terms_not_empty_no_space (ln "  BL   START ; go")).
  vm_compute; discriminate.
Defined.

(** ** Blank lines and comments *)

Lemma all_space_lstrip s : all_space s = true → lstrip s = EmptyString.
Proof.
  induction s as [|c s IH]; [done|]. simpl. intros H.
  apply andb_true_iff in H as [Hc Hs]. rewrite Hc. auto.
Qed.

Lemma all_space_strip s : all_space s = true → strip s = EmptyString.
Proof. intros H. unfold strip. by rewrite all_space_lstrip. Qed.

Lemma all_space_no_semicolon s :
  all_space s = true → has_char semicolon s = false.
Proof.
  induction s as [|c s IH]; [done|]. simpl. intros H.
  apply andb_true_iff in H as [Hc Hs]. rewrite (IH Hs).
  rewrite bool_decide_eq_false_2; [done|]. intros ->. discriminate Hc.
Qed.

Lemma loop_body_blank line st :
  clean line = EmptyString → loop_body line st = Ok (st, PBlank).
Proof. intros E. unfold loop_body. by rewrite E. Qed.

(** X3. A line of white space alone, and a line of white space followed
    by a semicolon and at least one more character, is cleaned to the
    empty string: the iteration stops at the first [continue], looks
    nothing up and leaves [out_buf] as it was. *)
Theorem blank_and_comment_lines_skipped
    (ws rest eol : string) (d : ascii) (st : Locals) :
  all_space ws = true → has_char LF ws = false →
  d ≠ LF → has_char LF rest = false → line_end eol →
  loop_body (ws +:+ eol) st = Ok (st, PBlank) ∧
  loop_body (ws +:+ String semicolon (String d rest) +:+ eol) st = Ok (st, PBlank).
Proof.
  intros Hws Hl Hd Hrest Heol.
  pose proof (all_space_no_semicolon ws Hws) as Hs.
  split; apply loop_body_blank.
  - rewrite clean_no_semicolon by done. by apply all_space_strip.
  - rewrite clean_comment by done. by apply all_space_strip.
Qed.

Lemma blank_and_comment_lines_skipped_ex :
  loop_body ("   " +:+ String LF EmptyString) init_locals = Ok (init_locals, PBlank) ∧
  loop_body ("   " +:+ String semicolon (String "n" "ote") +:+ String LF EmptyString)
    init_locals = Ok (init_locals, PBlank).
Proof.
  apply (blank_and_comment_lines_skipped "   " "ote" (String LF EmptyString) "n"
           init_locals).
  - reflexivity.
  - reflexivity.
  - discriminate.
  - reflexivity.
  - by right.
Defined.

(** X4. A comment does not change what a line does: when a line has no
    semicolon, the same line with a semicolon and at least one more
    character put before its end is cleaned to the same text, and the
    iteration ends in the same way. *)
Theorem comment_does_not_change_line
    (pre rest eol : string) (d : ascii) (st : Locals) :
  has_char semicolon pre = false → has_char LF pre = false →
  d ≠ LF → has_char LF rest = false → line_end eol →
  clean (pre +:+ String semicolon (String d rest) +:+ eol) = clean (pre +:+ eol) ∧
  loop_body (pre +:+ String semicolon (String d rest) +:+ eol) st
    = loop_body (pre +:+ eol) st.
Proof.
  intros Hs Hl Hd Hrest Heol.
  assert (clean (pre +:+ String semicolon (String d rest) +:+ eol)
          = clean (pre +:+ eol)) as E.
  { rewrite clean_comment by done. by rewrite clean_no_semicolon. }
  split; [done|]. unfold loop_body. by rewrite E.
Qed.

Lemma comment_does_not_change_line_ex :
  clean ("JMP " +:+ String semicolon (String "g" "o") +:+ String LF EmptyString)
    = clean ("JMP " +:+ String LF EmptyString) ∧
  loop_body ("JMP " +:+ String semicolon (String "g" "o") +:+ String LF EmptyString)
    init_locals
    = loop_body ("JMP " +:+ String LF EmptyString) init_locals.
Proof.
  apply (comment_does_not_change_line "JMP " "o" (String LF EmptyString) "g"
           init_locals).
  - reflexivity.
  - reflexivity.
  - discriminate.
  - reflexivity.
  - by right.
Defined.

(** ** Reading the file line by line *)

Lemma append_assoc s t u : (s +:+ t) +:+ u = s +:+ (t +:+ u).
Proof.
  induction s as [|c s IH]; [done|]. by rewrite !append_cons, IH.
Qed.

Lemma iter_lines_concat cur s : concat_strings (iter_lines cur s) = cur +:+ s.
Proof.
  revert cur. induction s as [|c s IH]; intros cur; simpl.
  - case_bool_decide as E; [by rewrite E|done].
  - case_bool_decide as Hc.
    + subst c. cbn [concat_strings foldr]. fold (concat_strings (iter_lines EmptyString s)).
      rewrite IH. by rewrite append_assoc.
    + rewrite IH. by rewrite append_assoc.
Qed.

Lemma universal_newlines_cons_CR s :
  universal_newlines (String CR s) =
    match s with
    | String d _ =>
        if bool_decide (d = LF) then universal_newlines s
        else String LF (universal_newlines s)
    | EmptyString => String LF EmptyString
    end.
Proof.
  destruct s as [|d s]; [done|].
  cbn [universal_newlines]. rewrite (bool_decide_eq_true_2 (CR = CR)) by done.
  case_bool_decide as Hd; [|done]. subst d.
  by rewrite (bool_decide_eq_false_2 (LF = CR)).
Qed.

Lemma universal_newlines_cons_other c s :
  c ≠ CR → universal_newlines (String c s) = String c (universal_newlines s).
Proof. intros Hc. cbn [universal_newlines]. by rewrite bool_decide_eq_false_2. Qed.

Lemma universal_newlines_no_CR s : has_char CR (universal_newlines s) = false.
Proof.
  induction s as [|c s IH]; [done|].
  destruct (decide (c = CR)) as [->|Hc].
  - rewrite universal_newlines_cons_CR. destruct s as [|d s]; [done|].
    case_bool_decide; [done|]. simpl in *. by rewrite IH.
  - rewrite universal_newlines_cons_other by done. simpl.
    by rewrite bool_decide_eq_false_2, IH.
Qed.

Lemma universal_newlines_id s : has_char CR s = false → universal_newlines s = s.
Proof.
  induction s as [|c s IH]; [done|]. intros H.
  apply has_char_cons_false in H as [Hc Hs].
  rewrite universal_newlines_cons_other by done. by rewrite IH.
Qed.

Lemma iter_lines_no_char a cur s line :
  has_char a cur = false → has_char a s = false →
  line ∈ iter_lines cur s → has_char a line = false.
Proof.
  revert cur. induction s as [|c s IH]; intros cur Hcur Hs Hin; simpl in Hin.
  - case_bool_decide; [by apply not_elem_of_nil in Hin|].
    by apply list_elem_of_singleton in Hin as ->.
  - apply has_char_cons_false in Hs as [Hc Hs]. case_bool_decide as E.
    + apply elem_of_cons in Hin as [->|Hin].
      * apply has_char_app_one; [done|]. by subst c.
      * by apply (IH EmptyString).
    + apply (IH (cur +:+ String c EmptyString)); [|done..].
      by apply has_char_app_one.
Qed.

Lemma iter_lines_not_empty cur s line :
  line ∈ iter_lines cur s → line ≠ EmptyString.
Proof.
  revert cur. induction s as [|c s IH]; intros cur Hin; simpl in Hin.
  - case_bool_decide; [by apply not_elem_of_nil in Hin|].
    by apply list_elem_of_singleton in Hin as ->.
  - case_bool_decide.
    + apply elem_of_cons in Hin as [->|Hin]; [apply append_one_not_empty|eauto].
    + eauto.
Qed.

(** The lines put together again are the text after the translation of
    the newlines. *)
Lemma file_lines_concat (text : string) :
  concat_strings (file_lines text) = universal_newlines text.
Proof. unfold file_lines. by rewrite iter_lines_concat. Qed.

(** X6. For a text without [\r] the lines put together are the text
    itself. *)
Theorem file_lines_concat_unix (text : string) :
  has_char CR text = false → concat_strings (file_lines text) = text.
Proof.
  intros H. unfold file_lines. rewrite iter_lines_concat.
  by apply universal_newlines_id.
Qed.

Lemma file_lines_concat_unix_start :
  has_char CR start_nop_bl_start = false ∧
  concat_strings (file_lines start_nop_bl_start) = start_nop_bl_start.
Proof.
  split; [vm_compute; reflexivity|].
  apply (file_lines_concat_unix start_nop_bl_start). vm_compute; reflexivity.
Defined.

Lemma iter_lines_split cur s pre line post :
  has_char LF cur = false →
  iter_lines cur s = pre ++ line :: post →
  ∃ body eol, line = body +:+ eol ∧ has_char LF body = false ∧ line_end eol
              ∧ (post ≠ [] → eol = String LF EmptyString).
Proof.
  revert cur pre. induction s as [|c s IH]; intros cur pre Hcur Heq; simpl in Heq.
  - case_bool_decide as E; [by destruct pre|].
    destruct pre as [|x pre]; [|by destruct pre].
    inversion Heq; subst. exists line, EmptyString.
    rewrite append_empty_r. split; [done|]. split; [done|]. split; [by left|].
    by intros Hp.
  - case_bool_decide as Hc.
    + destruct pre as [|x pre].
      * inversion Heq; subst. exists cur, (String LF EmptyString).
        split; [done|]. split; [done|]. split; [by right|]. done.
      * inversion Heq; subst. by apply (IH EmptyString pre).
    + apply (IH (cur +:+ String c EmptyString) pre); [|done].
      by apply has_char_app_one.
Qed.

(** X7. Every line that the loop reads is non-empty, holds no [\r], and
    is a run of characters other than [\n] followed by one [\n] or by
    nothing; only the last line that is read can be without its [\n]. *)
Theorem file_lines_wellformed (text line : string) (pre post : list string) :
  file_lines text = pre ++ line :: post →
  line ≠ EmptyString ∧ has_char CR line = false ∧
  ∃ body eol, line = body +:+ eol ∧ has_char LF body = false ∧ line_end eol
              ∧ (post ≠ [] → eol = String LF EmptyString).
Proof.
  intros Heq.
  assert (line ∈ file_lines text) as Hin.
  { rewrite Heq. apply elem_of_app. right. by left. }
  split; [by eapply iter_lines_not_empty|]. split.
  - eapply (iter_lines_no_char CR EmptyString); [done| |exact Hin].
    apply universal_newlines_no_CR.
  - by eapply (iter_lines_split EmptyString).
Qed.

Lemma file_lines_wellformed_start :
  file_lines start_nop_bl_start = [] ++ ln "START: NOP" :: [ln "BL START"] ∧
  ln "START: NOP" ≠ EmptyString ∧ has_char CR (ln "START: NOP") = false ∧
  ∃ body eol, ln "START: NOP" = body +:+ eol ∧ has_char LF body = false
              ∧ line_end eol
              ∧ ([ln "BL START"] ≠ [] → eol = String LF EmptyString).
Proof.
  assert (file_lines start_nop_bl_start
          = [] ++ ln "START: NOP" :: [ln "BL START"]) as Heq
    by (vm_compute; reflexivity).
  split; [exact Heq|].
  exact (file_lines_wellformed start_nop_bl_start (ln "START: NOP") []
           [ln "BL START"] Heq).
Defined.

(** ** More on the catalog *)

Lemma MNEMONICS_forallb_opcodes (f : string → Opcode → bool) :
  forallb (fun kv => forallb (f kv.1) (entry_opcodes kv.2)) MNEMONICS_display = true →
  ∀ k e o, MNEMONICS !! k = Some e → o ∈ entry_opcodes e → f k o = true.
Proof.
  intros Hf k e o Hk Ho.
  pose proof (MNEMONICS_forallb _ Hf k e Hk) as H. cbn [fst snd] in H.
  rewrite forallb_forall in H. by apply H, list_elem_of_In.
Qed.

(** X8. Every opcode of the catalog, plain or member of a mode family,
    is a byte: its [instr] lies between 0 and 255. *)
Theorem catalog_opcodes_are_bytes (k : string) (e : Entry) (o : Opcode) :
  MNEMONICS !! k = Some e → o ∈ entry_opcodes e → (0 ≤ instr o ≤ 255)%Z.
Proof.
  intros Hk Ho.
  pose proof (MNEMONICS_forallb_opcodes
    (fun _ o => ((0 <=? instr o) && (instr o <=? 255))%Z)
    ltac:(vm_compute; reflexivity) k e o Hk Ho) as H.
  cbn beta in H. apply andb_true_iff in H as [H1 H2]. lia.
Qed.

Lemma catalog_opcodes_are_bytes_JMP :
  MNEMONICS !! "JMP" = Some (EGroup JMP_group) ∧
  mkOpcode 0x73 "PC+N" ∈ entry_opcodes (EGroup JMP_group) ∧
  (0 ≤ instr (mkOpcode 0x73 "PC+N") ≤ 255)%Z.
Proof.
  assert (MNEMONICS !! "JMP" = Some (EGroup JMP_group)) as Hk
    by (vm_compute; reflexivity).
  assert (mkOpcode 0x73 "PC+N" ∈ entry_opcodes (EGroup JMP_group)) as Ho
    by (apply (bool_decide_unpack _); vm_compute; exact I).
  split; [exact Hk|]. split; [exact Ho|].
  exact (catalog_opcodes_are_bytes "JMP" (EGroup JMP_group) (mkOpcode 0x73 "PC+N") Hk Ho).
Defined.



(** X10. Every key of the catalog is made of one to seven upper-case
    letters and digits. *)
Theorem catalog_keys_upper_or_digit (k : string) (e : Entry) :
  MNEMONICS !! k = Some e →
  k ≠ EmptyString ∧ all_upper_or_digit k = true ∧ (String.length k ≤ 7)%nat.
Proof.
  intros Hk.
  set (f := fun kv : string * Entry =>
    negb (bool_decide (kv.1 = EmptyString)) && all_upper_or_digit kv.1
    && (String.length kv.1 <=? 7)%nat).
  assert (forallb f MNEMONICS_display = true) as Hchk by (vm_compute; reflexivity).
  pose proof (MNEMONICS_forallb f Hchk k e Hk) as H. unfold f in H.
  clear Hchk f. cbn [fst] in H. apply andb_true_iff in H as [H H3].
  apply andb_true_iff in H as [H1 H2].
  apply negb_true_iff, bool_decide_eq_false_1 in H1.
  apply Nat.leb_le in H3. repeat split; assumption.
Qed.

Lemma catalog_keys_upper_or_digit_SYSCALL :
  MNEMONICS !! "SYSCALL" = Some (EOpcode (mkOpcode 0x76 "")) ∧
  "SYSCALL" ≠ EmptyString ∧ all_upper_or_digit "SYSCALL" = true
  ∧ (String.length "SYSCALL" ≤ 7)%nat.
Proof.
  assert (MNEMONICS !! "SYSCALL" = Some (EOpcode (mkOpcode 0x76 ""))) as Hk
    by (vm_compute; reflexivity).
  split; [exact Hk|].
  exact (catalog_keys_upper_or_digit "SYSCALL" _ Hk).
Defined.

Lemma not_upper_or_digit_not_key t :
  all_upper_or_digit t = false → MNEMONICS !! t = None.
Proof.
  intros Ht. destruct (MNEMONICS !! t) as [e|] eqn:E; [|done].
  pose proof (MNEMONICS_forallb
    (fun kv => all_upper_or_digit kv.1) ltac:(vm_compute; reflexivity) t e E) as H.
  cbn [fst] in H. congruence.
Qed.

(** X11. A line whose last field holds a character other than an
    upper-case letter or a digit (the colon of a label declaration, a
    lower-case letter, [#], a bracket) ends in the [KeyError] handler,
    with [out_buf] unchanged. *)
Theorem other_characters_line_skipped (line operand : string) (st : Locals) :
  clean line ≠ EmptyString →
  last (re_split (clean line)) = Some operand →
  all_upper_or_digit operand = false →
  loop_body line st = Ok (st, PKeyError operand).
Proof.
  intros Hne Hlast Hop.
  rewrite (loop_body_operand line st operand Hne Hlast).
  by rewrite (not_upper_or_digit_not_key operand Hop).
Qed.

Lemma other_characters_line_skipped_label :
  loop_body (ln "START:") init_locals = Ok (init_locals, PKeyError "START:").
Proof.
  apply (other_characters_line_skipped (ln "START:") "START:" init_locals).
  - vm_compute; discriminate.
  - vm_compute; reflexivity.
  - vm_compute; reflexivity.
Defined.

(** X12. The line made of the key of a mode family alone takes the
    [OpcodeGroup] branch with the group of the catalog and leaves
    [out_buf] as it was: nothing is appended to it. *)
Theorem mode_family_line_nothing_appended
    (k : string) (g : OpcodeGroup) (st : Locals) :
  MNEMONICS !! k = Some (EGroup g) →
  loop_body (ln k) st = Ok (st, PGroup g).
Proof.
  intros Hk. destruct (MNEMONICS_key_line k _ Hk) as (Hc & Hs & Hne).
  rewrite (loop_body_operand (ln k) st k).
  - by rewrite Hk.
  - by rewrite Hc.
  - by rewrite Hc, Hs.
Qed.

Lemma mode_family_line_nothing_appended_JMP :
  MNEMONICS !! "JMP" = Some (EGroup JMP_group) ∧
  loop_body (ln "JMP") init_locals = Ok (init_locals, PGroup JMP_group).
Proof.
  assert (MNEMONICS !! "JMP" = Some (EGroup JMP_group)) as Hk
    by (vm_compute; reflexivity).
  split; [exact Hk|].
  exact (mode_family_line_nothing_appended "JMP" JMP_group init_locals Hk).
Defined.

(** ** How a dictionary display is evaluated *)

Lemma foldl_insert_other {V} (kvs : list (string * V)) (d : gmap string V) k :
  k ∉ kvs.*1 →
  foldl (fun d kv => <[kv.1 := kv.2]> d) d kvs !! k = d !! k.
Proof.
  revert d. induction kvs as [|[k' v'] kvs IH]; intros d Hk; simpl; [done|].
  rewrite fmap_cons, not_elem_of_cons in Hk. destruct Hk as [Hne Hk].
  rewrite IH by done. simpl in *. by rewrite lookup_insert_ne.
Qed.

Lemma foldl_insert_app {V} (l1 l2 : list (string * V)) (d : gmap string V) :
  foldl (fun d kv => <[kv.1 := kv.2]> d) d (l1 ++ l2)
  = foldl (fun d kv => <[kv.1 := kv.2]> d)
      (foldl (fun d kv => <[kv.1 := kv.2]> d) d l1) l2.
Proof. apply foldl_app. Qed.

(** X13. In a dictionary display the last pair written for a key is the
    one that the dictionary keeps, whatever was written for the key
    before. *)
Theorem dict_of_display_last_wins {V}
    (kvs1 kvs2 : list (string * V)) (k : string) (v : V) :
  k ∉ kvs2.*1 →
  (dict_of_display (kvs1 ++ (k, v) :: kvs2)) !! k = Some v.
Proof.
  intros Hk. unfold dict_of_display. rewrite foldl_insert_app. simpl.
  rewrite foldl_insert_other by done. apply lookup_insert_eq.
Qed.

Lemma dict_of_display_last_wins_INR :
  ("INR" ∉ [("NOP", EOpcode (mkOpcode 0x01 ""))].*1) ∧
  (dict_of_display
     ([("INR", EOpcode INR_byte)] ++
      ("INR", EOpcode INR_word) :: [("NOP", EOpcode (mkOpcode 0x01 ""))])) !! "INR"
  = Some (EOpcode INR_word).
Proof.
  assert ("INR" ∉ [("NOP", EOpcode (mkOpcode 0x01 ""))].*1) as Hk.
  { apply (bool_decide_unpack _). vm_compute. exact I. }
  split; [exact Hk|].
  exact (dict_of_display_last_wins [("INR", EOpcode INR_byte)]
           [("NOP", EOpcode (mkOpcode 0x01 ""))] "INR" (EOpcode INR_word) Hk).
Defined.

Lemma duplicate_keys_cons {V} (kv : string * V) kvs k :
  k ∈ duplicate_keys kvs → k ∈ duplicate_keys (kv :: kvs).
Proof. simpl. case_bool_decide; [by right|done]. Qed.

(** X14. A key that a display writes once is found in the dictionary
    with the value written for it: a pair is lost only when its key is
    written again. *)
Theorem dict_of_display_written_once {V}
    (kvs : list (string * V)) (k : string) (v : V) :
  (k, v) ∈ kvs → k ∉ duplicate_keys kvs →
  (dict_of_display kvs) !! k = Some v.
Proof.
  unfold dict_of_display. generalize (∅ : gmap string V).
  induction kvs as [|[k' v'] kvs IH]; intros d Hin Hdup.
  - by apply not_elem_of_nil in Hin.
  - apply elem_of_cons in Hin as [Heq|Hin].
    + inversion Heq; subst k' v'. simpl in *.
      case_bool_decide as Hk; [by destruct Hdup; left|].
      rewrite foldl_insert_other by done. apply lookup_insert_eq.
    + simpl. apply IH; [done|]. intros Hd. by apply Hdup, duplicate_keys_cons.
Qed.

Lemma dict_of_display_written_once_NOP :
  ("NOP", EOpcode (mkOpcode 0x01 "")) ∈ MNEMONICS_display ∧
  ("NOP" ∉ duplicate_keys MNEMONICS_display) ∧
  (dict_of_display MNEMONICS_display) !! "NOP" = Some (EOpcode (mkOpcode 0x01 "")).
Proof.
  assert (("NOP", EOpcode (mkOpcode 0x01 "")) ∈ MNEMONICS_display) as Hin.
  { apply (bool_decide_unpack _). vm_compute. exact I. }
  assert ("NOP" ∉ duplicate_keys MNEMONICS_display) as Hdup.
  { apply (bool_decide_unpack _). vm_compute. exact I. }
  split; [exact Hin|]. split; [exact Hdup|].
  exact (dict_of_display_written_once MNEMONICS_display "NOP" _ Hin Hdup).
Defined.

(** X15. The keys of the dictionary are the keys that the display
    writes: a key is found exactly when some pair is written for it. *)
Theorem dict_of_display_keys {V} (kvs : list (string * V)) (k : string) :
  is_Some ((dict_of_display kvs) !! k) ↔ k ∈ kvs.*1.
Proof.
  split.
  - intros [v Hv]. apply dict_of_display_lookup in Hv.
    apply list_elem_of_fmap. by exists (k, v).
  - unfold dict_of_display. generalize (∅ : gmap string V).
    induction kvs as [|[k' v'] kvs IH]; intros d Hin.
    + by apply not_elem_of_nil in Hin.
    + simpl. destruct (decide (k ∈ kvs.*1)) as [Hk|Hk]; [by apply IH|].
      rewrite fmap_cons in Hin. apply elem_of_cons in Hin as [->|Hin]; [|done].
      rewrite foldl_insert_other by done. simpl.
      rewrite lookup_insert_eq. by eexists.
Qed.

(** ** The run as a whole *)

Lemma loop_body_any_locals line st st' p :
  loop_body line st = Ok (st, p) → loop_body line st' = Ok (st', p).
Proof.
  unfold loop_body. case_bool_decide.
  - intros E. by inversion E.
  - destruct (pop_last (re_split (clean line))) as [[x r]|e]; simpl; [|done].
    destruct (getitem MNEMONICS x) as [[o|g]|[]]; intros E; by inversion E.
Qed.

(** X16. The lines are handled one by one and independently: the loop
    ends normally with one path per line, in the order of the lines, and
    the path of a line is the one that the line takes on its own,
    whatever the local variables and the other lines are. *)
Theorem lines_handled_independently (lines : list string) (st : Locals) :
  ∃ ps, assemble_loop lines st = Ok (st, ps) ∧
        Forall2 (fun line p => ∀ st', loop_body line st' = Ok (st', p)) lines ps.
Proof.
  induction lines as [|line lines IH].
  - exists []. split; [done|constructor].
  - destruct IH as (ps & Hps & HF).
    destruct (loop_body_total line st) as [p Hp].
    exists (p :: ps). split; [by apply assemble_loop_cons|].
    constructor; [|done]. intros st'. by eapply loop_body_any_locals.
Qed.


(** ** White space around a line, and lines of one token *)

Lemma has_char_app c s t :
  has_char c s = false → has_char c t = false → has_char c (s +:+ t) = false.
Proof.
  intros Hs Ht. induction s as [|a s IH]; [done|].
  apply has_char_cons_false in Hs as [Ha Hs]. rewrite append_cons. simpl.
  by rewrite bool_decide_eq_false_2, IH.
Qed.

Lemma lstrip_all_space_app ws s : all_space ws = true → lstrip (ws +:+ s) = lstrip s.
Proof.
  induction ws as [|c ws IH]; [done|]. simpl. intros H.
  apply andb_true_iff in H as [Hc Hws]. rewrite ?append_cons. simpl.
  rewrite Hc. auto.
Qed.

Lemma rstrip_app_all_space s ws : all_space ws = true → rstrip (s +:+ ws) = rstrip s.
Proof.
  revert s. induction ws as [|c ws IH]; intros s H.
  - by rewrite append_empty_r.
  - simpl in H. apply andb_true_iff in H as [Hc Hws].
    change (String c ws) with (String c EmptyString +:+ ws).
    rewrite <- append_assoc, IH by done. by apply rstrip_app_space.
Qed.

Lemma lstrip_app_cases s ws :
  all_space ws = true →
  lstrip (s +:+ ws) = lstrip s +:+ ws
  ∨ (lstrip s = EmptyString ∧ lstrip (s +:+ ws) = EmptyString).
Proof.
  intros Hws. induction s as [|c s IH].
  - right. split; [done|]. by apply all_space_lstrip.
  - rewrite append_cons. simpl. destruct (isspace c); [done|]. by left.
Qed.

Lemma strip_surrounding_space ws1 s ws2 :
  all_space ws1 = true → all_space ws2 = true →
  strip (ws1 +:+ s +:+ ws2) = strip s.
Proof.
  intros H1 H2. unfold strip. rewrite lstrip_all_space_app by done.
  destruct (lstrip_app_cases s ws2 H2) as [E|[E1 E2]].
  - rewrite E. by apply rstrip_app_all_space.
  - by rewrite E1, E2.
Qed.

(** X18. White space before and after the text of a line does not change
    what the line does: a line without semicolon is cleaned to the same
    text with or without it, and the iteration ends in the same way. *)
Theorem surrounding_space_does_not_change_line
    (ws1 body ws2 eol : string) (st : Locals) :
  all_space ws1 = true → has_char LF ws1 = false →
  all_space ws2 = true → has_char LF ws2 = false →
  has_char semicolon body = false → has_char LF body = false →
  line_end eol →
  clean ((ws1 +:+ body +:+ ws2) +:+ eol) = clean (body +:+ eol) ∧
  loop_body ((ws1 +:+ body +:+ ws2) +:+ eol) st = loop_body (body +:+ eol) st.
Proof.
  intros H1 L1 H2 L2 Hs Hl Heol.
  assert (clean ((ws1 +:+ body +:+ ws2) +:+ eol) = clean (body +:+ eol)) as E.
  { rewrite !clean_no_semicolon; try done.
    - by apply strip_surrounding_space.
    - repeat apply has_char_app; auto using all_space_no_semicolon.
    - by repeat apply has_char_app. }
  split; [done|]. unfold loop_body. by rewrite E.
Qed.

Lemma surrounding_space_does_not_change_line_ex :
  clean (("    " +:+ "BL START" +:+ "  ") +:+ String LF EmptyString)
    = clean ("BL START" +:+ String LF EmptyString) ∧
  loop_body (("    " +:+ "BL START" +:+ "  ") +:+ String LF EmptyString) init_locals
    = loop_body ("BL START" +:+ String LF EmptyString) init_locals.
Proof.
  apply (surrounding_space_does_not_change_line "    " "BL START" "  "
           (String LF EmptyString) init_locals).
  - reflexivity.
  - reflexivity.
  - reflexivity.
  - reflexivity.
  - reflexivity.
  - reflexivity.
  - by right.
Defined.

Lemma no_space_lstrip s : has_space s = false → lstrip s = s.
Proof.
  destruct s as [|c s]; [done|]. simpl. intros H.
  apply orb_false_iff in H as [Hc _]. by rewrite Hc.
Qed.

Lemma no_space_rstrip s : has_space s = false → rstrip s = s.
Proof.
  induction s as [|c s IH]; [done|]. simpl. intros H.
  apply orb_false_iff in H as [Hc Hs]. rewrite (IH Hs), Hc. by destruct s.
Qed.

Lemma re_split_go_no_space_one cur s :
  has_space s = false → re_split_go false cur s = [cur +:+ s].
Proof.
  revert cur. induction s as [|c s IH]; intros cur H; simpl.
  - by rewrite append_empty_r.
  - simpl in H. apply orb_false_iff in H as [Hc Hs]. rewrite Hc.
    rewrite IH by done. by rewrite append_assoc.
Qed.

Lemma no_space_no_LF s : has_space s = false → has_char LF s = false.
Proof.
  induction s as [|c s IH]; [done|]. simpl. intros H.
  apply orb_false_iff in H as [Hc Hs]. rewrite (IH Hs).
  rewrite bool_decide_eq_false_2; [done|]. intros ->. discriminate Hc.
Qed.

(** X19. A line made of one token (no white space, no semicolon) and the
    end of the line is cleaned to the token, which is its only field, and
    the lookup of that token decides how the iteration ends: the
    plain-opcode branch, the mode-family branch, or the [KeyError]
    handler; in each case [out_buf] is as it was. *)
Theorem one_token_line (tok eol : string) (st : Locals) :
  tok ≠ EmptyString → has_space tok = false →
  has_char semicolon tok = false → line_end eol →
  clean (tok +:+ eol) = tok ∧
  re_split (clean (tok +:+ eol)) = [tok] ∧
  loop_body (tok +:+ eol) st =
    Ok (st, match MNEMONICS !! tok with
            | Some (EOpcode o) => PPlain o
            | Some (EGroup g) => PGroup g
            | None => PKeyError tok
            end).
Proof.
  intros Hne Hsp Hs Heol.
  assert (clean (tok +:+ eol) = tok) as E.
  { rewrite clean_no_semicolon by auto using no_space_no_LF.
    unfold strip. by rewrite no_space_lstrip, no_space_rstrip. }
  assert (re_split tok = [tok]) as Er.
  { unfold re_split. by rewrite re_split_go_no_space_one. }
  split; [done|]. rewrite E. split; [done|].
  apply loop_body_operand; rewrite E; [done|]. by rewrite Er.
Qed.

Lemma one_token_line_label :
  clean ("START:" +:+ String LF EmptyString) = "START:" ∧
  re_split (clean ("START:" +:+ String LF EmptyString)) = ["START:"] ∧
  loop_body ("START:" +:+ String LF EmptyString) init_locals =
    Ok (init_locals, match MNEMONICS !! "START:" with
                     | Some (EOpcode o) => PPlain o
                     | Some (EGroup g) => PGroup g
                     | None => PKeyError "START:"
                     end).
Proof.
  apply (one_token_line "START:" (String LF EmptyString) init_locals).
  - discriminate.
  - reflexivity.
  - reflexivity.
  - by right.
Defined.
